(** * SimpleRandomWalk: a bounded 2-D random walk

    Shallow embedding of [entorno.py] (class [Entorno]), [random_walk.py]
    (class [RandomWalk]) and, of [visualizador.py], of the efficiency
    computation of [Visualizador.mostrar_estadisticas] and of the data that
    the two plotting methods compute from a statistics dictionary.

    Python integers are unbounded, hence [Z].  A position is a pair of
    integers.  The list [camino] is a [list] that grows at its end.  The
    process-wide generator of the module [random] is an explicit value of
    type [Azar], threaded through every function that draws from it.
    Console output ([print]) has no effect on the state and is left out. *)

From Equations Require Import Equations.
From Stdlib Require Import ZArith List Bool Lia QArith.
Import ListNotations.

#[local] Open Scope Z_scope.

Definition Posicion : Type := (Z * Z)%type.

(** ** entorno.py *)

Record Entorno : Type := mkEntorno {
  ancho : Z;
  alto : Z;
  pos_inicial : Posicion
}.

(** [Entorno.__init__(ancho, alto, pos_inicial=None)].  Nothing is checked:
    any dimensions and any explicit start are stored as they come.  [//] is
    floor division, which is [Z.div]. *)
Definition Entorno_init (ancho alto : Z) (pos_inicial : option Posicion) : Entorno :=
  mkEntorno ancho alto
    (match pos_inicial with
     | None => (ancho / 2, alto / 2)
     | Some p => p
     end).

(** [return 0 <= x < self.ancho and 0 <= y < self.alto] *)
Definition es_posicion_valida (e : Entorno) (x y : Z) : bool :=
  ((0 <=? x) && (x <? ancho e)) && ((0 <=? y) && (y <? alto e)).

Definition obtener_dimensiones (e : Entorno) : Z * Z := (ancho e, alto e).

(** ** The random source

    [random.choice(seq)] returns [seq[randbelow(len(seq))]].  The generator
    is an infinite sequence of raw draws together with the number of draws
    consumed so far; a draw below [n] is the raw draw reduced modulo [n]. *)

Record Azar : Type := mkAzar {
  fuente : nat -> nat;
  cursor : nat
}.

Definition randbelow (n : nat) (az : Azar) : nat * Azar :=
  (Nat.modulo (fuente az (cursor az)) n, mkAzar (fuente az) (S (cursor az))).

Definition choice {A : Type} (d : A) (seq : list A) (az : Azar) : A * Azar :=
  let (i, az') := randbelow (length seq) az in (nth i seq d, az').

(** ** random_walk.py *)

Record RandomWalk : Type := mkRandomWalk {
  entorno : Entorno;
  posicion_actual : Posicion;
  camino : list Posicion;
  pasos_realizados : Z;
  intentos_bloqueados : Z
}.

(** Up, down, left, right. *)
Definition DIRECCIONES : list (Z * Z) :=
  [ (0, -1); (0, 1); (-1, 0); (1, 0) ].

(** [RandomWalk.__init__(entorno)] *)
Definition RandomWalk_init (e : Entorno) : RandomWalk :=
  let posicion_actual := pos_inicial e in
  mkRandomWalk e posicion_actual [posicion_actual] 0 0.

Definition _obtener_direccion_aleatoria (az : Azar) : (Z * Z) * Azar :=
  choice (0, 0) DIRECCIONES az.

(** The candidate of one attempt: [(nueva_x, nueva_y)]. *)
Definition nueva_posicion (rw : RandomWalk) (direccion : Z * Z) : Posicion :=
  let (dx, dy) := direccion in
  (fst (posicion_actual rw) + dx, snd (posicion_actual rw) + dy).

(** The branch of a valid move: lines 91-93. *)
Definition mover (rw : RandomWalk) (nueva : Posicion) : RandomWalk :=
  mkRandomWalk (entorno rw) nueva (camino rw ++ [nueva])
               (pasos_realizados rw + 1) (intentos_bloqueados rw).

(** The branch of a blocked move: line 101. *)
Definition bloquear (rw : RandomWalk) : RandomWalk :=
  mkRandomWalk (entorno rw) (posicion_actual rw) (camino rw)
               (pasos_realizados rw) (intentos_bloqueados rw + 1).

Definition inspect {A : Type} (a : A) : { b : A | a = b } := exist _ a eq_refl.

(** The loop [while intentos_locales < max_intentos] of [realizar_paso].
    It terminates because each turn that does not return adds one to
    [intentos_locales]. *)
Equations? bucle_intentos (max_intentos intentos_locales : Z)
    (rw : RandomWalk) (az : Azar) : bool * RandomWalk * Azar
    by wf (Z.to_nat (max_intentos - intentos_locales)) lt :=
  bucle_intentos max_intentos intentos_locales rw az
    with inspect (intentos_locales <? max_intentos) := {
    | exist _ true _ =>
        let '(direccion, az1) := _obtener_direccion_aleatoria az in
        let nueva := nueva_posicion rw direccion in
        if es_posicion_valida (entorno rw) (fst nueva) (snd nueva)
        then (true, mover rw nueva, az1)
        else bucle_intentos max_intentos (intentos_locales + 1) (bloquear rw) az1
    | exist _ false _ => (false, rw, az) }.
Proof.
  apply Z.ltb_lt in e. lia.
Qed.

(** [realizar_paso(max_intentos)]: the result, the engine and the generator
    after the call. *)
Definition realizar_paso (max_intentos : Z) (rw : RandomWalk) (az : Azar)
  : bool * RandomWalk * Azar :=
  bucle_intentos max_intentos 0 rw az.

(** The float [base ** 0.5] as Python computes it.  Floating-point
    arithmetic is not interpreted here: only the integer the power is
    applied to is kept. *)
Inductive Flotante : Type :=
| Potencia05 (base : Z).

Definition _calcular_distancia_euclidiana (rw : RandomWalk) : Flotante :=
  let '(x0, y0) := pos_inicial (entorno rw) in
  let '(x1, y1) := posicion_actual rw in
  Potencia05 ((x1 - x0) ^ 2 + (y1 - y0) ^ 2).

Definition _calcular_distancia_manhattan (rw : RandomWalk) : Z :=
  let '(x0, y0) := pos_inicial (entorno rw) in
  let '(x1, y1) := posicion_actual rw in
  Z.abs (x1 - x0) + Z.abs (y1 - y0).

(** The dictionary returned by [obtener_estadisticas], one field per key. *)
Module Est.
Record t : Type := mk {
  pasos_realizados : Z;
  intentos_bloqueados : Z;
  posicion_inicial : Posicion;
  posicion_final : Posicion;
  camino : list Posicion;
  distancia_euclidiana : Flotante;
  distancia_manhattan : Z
}.
End Est.

(** [camino.copy()] is a new list with the same elements: the snapshot does
    not share the engine's list, and the engine is left as it was. *)
Definition obtener_estadisticas (rw : RandomWalk) : Est.t :=
  Est.mk (pasos_realizados rw) (intentos_bloqueados rw)
         (pos_inicial (entorno rw)) (posicion_actual rw) (camino rw)
         (_calcular_distancia_euclidiana rw)
         (_calcular_distancia_manhattan rw).

(** [reiniciar()] *)
Definition reiniciar (rw : RandomWalk) : RandomWalk :=
  let posicion_actual := pos_inicial (entorno rw) in
  mkRandomWalk (entorno rw) posicion_actual [posicion_actual] 0 0.

(** How a call ends: with a value, or with the one exception the modelled
    code can raise. *)
Inductive Resultado (A : Type) : Type :=
| Retorna (a : A)
| ZeroDivisionError.
Arguments Retorna {A} a.
Arguments ZeroDivisionError {A}.

(** The retry budget [simular] gives every step: it calls
    [self.realizar_paso(mostrar_info=mostrar_progreso)], so [max_intentos]
    keeps its default. *)
Definition max_intentos_por_defecto : Z := 1000.

(** The loop [for paso in range(num_pasos)] of [simular], with [restantes]
    turns left.  [break] ends it at the first failed step.  The summary
    line is only printed, but its condition
    [not mostrar_progreso and (paso + 1) % mostrar_cada == 0] divides by
    [mostrar_cada]. *)
Fixpoint bucle_pasos (restantes : nat) (mostrar_progreso : bool)
    (mostrar_cada : Z) (rw : RandomWalk) (az : Azar)
  : Resultado unit * RandomWalk * Azar :=
  match restantes with
  | O => (Retorna tt, rw, az)
  | S restantes' =>
      let '(exito, rw1, az1) := realizar_paso max_intentos_por_defecto rw az in
      if negb exito then (Retorna tt, rw1, az1)
      else if negb mostrar_progreso && (mostrar_cada =? 0)
           then (ZeroDivisionError, rw1, az1)
           else bucle_pasos restantes' mostrar_progreso mostrar_cada rw1 az1
  end.

(** [simular(num_pasos, mostrar_progreso=True, mostrar_cada=10)].
    [range(num_pasos)] has [max(num_pasos, 0)] elements. *)
Definition simular (num_pasos : Z) (mostrar_progreso : bool)
    (mostrar_cada : Z) (rw : RandomWalk) (az : Azar)
  : Resultado Est.t * RandomWalk * Azar :=
  let '(r, rw', az') :=
    bucle_pasos (Z.to_nat num_pasos) mostrar_progreso mostrar_cada rw az in
  match r with
  | Retorna _ => (Retorna (obtener_estadisticas rw'), rw', az')
  | ZeroDivisionError => (ZeroDivisionError, rw', az')
  end.

(** ** visualizador.py: the efficiency line of [mostrar_estadisticas]

    [pasos / (pasos + bloqueados) * 100] is a true division; the rational
    kept here is its exact value, which Python rounds to a float. *)
Inductive Eficiencia : Type :=
| NoCalculada
| Calculada (q : Q)
| DivisionPorCero.

Definition formula_eficiencia (pasos bloqueados : Z) : Q :=
  (inject_Z pasos / inject_Z (pasos + bloqueados) * inject_Z 100)%Q.

Definition eficiencia (estadisticas : Est.t) : Eficiencia :=
  if Est.pasos_realizados estadisticas >? 0 then
    if Est.pasos_realizados estadisticas
       + Est.intentos_bloqueados estadisticas =? 0
    then DivisionPorCero
    else Calculada (formula_eficiencia
                      (Est.pasos_realizados estadisticas)
                      (Est.intentos_bloqueados estadisticas))
  else NoCalculada.

(** ** Sequences of calls on one engine *)

Inductive Operacion : Type :=
| op_realizar_paso (max_intentos : Z)
| op_simular (num_pasos : Z) (mostrar_progreso : bool) (mostrar_cada : Z)
| op_obtener_estadisticas
| op_reiniciar.

(** The engine and the generator after one call; what the call returns is
    dropped.  An exception out of [simular] leaves the engine as the loop
    left it. *)
Definition ejecutar (op : Operacion) (rw : RandomWalk) (az : Azar)
  : RandomWalk * Azar :=
  match op with
  | op_realizar_paso max_intentos =>
      let '(_, rw', az') := realizar_paso max_intentos rw az in (rw', az')
  | op_simular num_pasos mostrar_progreso mostrar_cada =>
      let '(_, rw', az') :=
        simular num_pasos mostrar_progreso mostrar_cada rw az in (rw', az')
  | op_obtener_estadisticas =>
      let _ := obtener_estadisticas rw in (rw, az)
  | op_reiniciar => (reiniciar rw, az)
  end.

Fixpoint ejecutar_todas (ops : list Operacion) (rw : RandomWalk) (az : Azar)
  : RandomWalk * Azar :=
  match ops with
  | [] => (rw, az)
  | op :: ops' =>
      let '(rw', az') := ejecutar op rw az in ejecutar_todas ops' rw' az'
  end.

(** The engine built over [e] and then driven through [ops]. *)
Definition motor_tras (e : Entorno) (ops : list Operacion) (az : Azar)
  : RandomWalk :=
  fst (ejecutar_todas ops (RandomWalk_init e) az).

(** A generator that replays a finite list of raw draws, then zeros. *)
Definition azar_de (tiradas : list nat) : Azar :=
  mkAzar (fun i => nth i tiradas 0%nat) 0.

(** ** What a step call sees of the generator

    The [j]-th draw of a call started with generator [az], the candidate it
    gives from the position held by [rw], and whether that candidate is
    inside the region. *)

Definition avanzar (az : Azar) (n : nat) : Azar :=
  mkAzar (fuente az) (cursor az + n).

Definition direccion_sorteada (az : Azar) (j : nat) : Z * Z :=
  fst (_obtener_direccion_aleatoria (avanzar az j)).

Definition candidata (rw : RandomWalk) (az : Azar) (j : nat) : Posicion :=
  nueva_posicion rw (direccion_sorteada az j).

Definition candidata_valida (rw : RandomWalk) (az : Azar) (j : nat) : bool :=
  es_posicion_valida (entorno rw)
    (fst (candidata rw az j)) (snd (candidata rw az j)).

(** The engine with [n] more blocked attempts and nothing else changed. *)
Definition con_bloqueos (rw : RandomWalk) (n : Z) : RandomWalk :=
  mkRandomWalk (entorno rw) (posicion_actual rw) (camino rw)
               (pasos_realizados rw) (intentos_bloqueados rw + n).

(** ** Vocabulary of the statements *)

Definition valida (e : Entorno) (p : Posicion) : bool :=
  es_posicion_valida e (fst p) (snd p).

(** [q] is [p] moved by one of the four directions. *)
Definition paso_unitario (p q : Posicion) : Prop :=
  In (fst q - fst p, snd q - snd p) DIRECCIONES.

Definition continuo (l : list Posicion) : Prop :=
  forall (i : nat) (p q : Posicion),
    nth_error l i = Some p -> nth_error l (S i) = Some q -> paso_unitario p q.

(** [len(camino) == pasos_realizados + 1], [camino[0]] is the start,
    [camino[-1]] is the current position, every element is in the region. *)
Definition invariantes_camino (rw : RandomWalk) : Prop :=
  Z.of_nat (length (camino rw)) = pasos_realizados rw + 1 /\
  nth_error (camino rw) 0 = Some (pos_inicial (entorno rw)) /\
  nth_error (camino rw) (length (camino rw) - 1) = Some (posicion_actual rw) /\
  Forall (fun p => valida (entorno rw) p = true) (camino rw).

(** [llamadas m s n ok s']: starting in [s], [realizar_paso m] is called
    [n] times in a row, each call on the state the one before left; every
    call but the last returns [True], the last returns [ok], and [s'] is
    the state after it. *)
Inductive llamadas (max_intentos : Z)
  : RandomWalk * Azar -> nat -> bool -> RandomWalk * Azar -> Prop :=
| llamadas_ninguna (s : RandomWalk * Azar) :
    llamadas max_intentos s 0 true s
| llamadas_fallo (rw rw1 : RandomWalk) (az az1 : Azar) :
    realizar_paso max_intentos rw az = (false, rw1, az1) ->
    llamadas max_intentos (rw, az) 1 false (rw1, az1)
| llamadas_exito (rw rw1 : RandomWalk) (az az1 : Azar) (n : nat) (ok : bool)
      (s' : RandomWalk * Azar) :
    realizar_paso max_intentos rw az = (true, rw1, az1) ->
    llamadas max_intentos (rw1, az1) n ok s' ->
    llamadas max_intentos (rw, az) (S n) ok s'.

(** The number of calls that returned [True] among [n] calls of which only
    the last may have failed. *)
Definition exitos (n : nat) (ok : bool) : Z :=
  if ok then Z.of_nat n else Z.of_nat n - 1.

(** [simular(num_pasos)] read as a driver of [realizar_paso] with retry
    budget [max_intentos]: at most [num_pasos] calls, none after a failed
    one, and the snapshot of the engine they leave. *)
Definition simular_conduce (num_pasos max_intentos : Z)
    (mostrar_progreso : bool) (mostrar_cada : Z)
    (rw : RandomWalk) (az : Azar) : Prop :=
  exists (n : nat) (ok : bool) (rw' : RandomWalk) (az' : Azar),
    simular num_pasos mostrar_progreso mostrar_cada rw az
    = (Retorna (obtener_estadisticas rw'), rw', az') /\
    llamadas max_intentos (rw, az) n ok (rw', az') /\
    (n <= Z.to_nat num_pasos)%nat /\
    (ok = true -> n = Z.to_nat num_pasos) /\
    pasos_realizados rw' = pasos_realizados rw + exitos n ok /\
    Est.pasos_realizados (obtener_estadisticas rw')
    = pasos_realizados rw + exitos n ok.

(** What every engine built over [e] satisfies, whatever [e] is: it still
    refers to [e], the path has one element more than there were steps,
    starts at the start, ends at the current position, is inside the region
    from its second element on and moves by one direction at a time. *)
Definition camino_bien_formado (e : Entorno) (rw : RandomWalk) : Prop :=
  entorno rw = e /\
  Z.of_nat (length (camino rw)) = pasos_realizados rw + 1 /\
  (exists l, camino rw = pos_inicial e :: l) /\
  (exists l, camino rw = l ++ [posicion_actual rw]) /\
  Forall (fun p => valida e p = true) (tl (camino rw)) /\
  continuo (camino rw).

(** ** visualizador.py: the data handed to the plotting library

    Of [visualizar_camino_estatico] and of the callback [animate] of
    [visualizar_camino_animado], the part that computes what is drawn: the
    axis limits, the coordinate lists of the line, the markers and the
    numbers of the title.  Colours, sizes, labels and the formatting of the
    title are left out. *)
Module Vis.

(** The slice [l[:stop]]: a negative [stop] counts from the end, and a
    [stop] beyond either end is clamped. *)
Definition hasta {A : Type} (l : list A) (stop : Z) : list A :=
  if stop <? 0
  then firstn (Z.to_nat (Z.of_nat (length l) + stop)) l
  else firstn (Z.to_nat stop) l.

(** [l[-1]], which raises [IndexError] on the empty list. *)
Definition ultimo {A : Type} (l : list A) : option A :=
  match rev l with
  | [] => None
  | x :: _ => Some x
  end.

(** What the title of a frame ends as: the text is set, from the frame
    number, [len(camino) - 1], the progress and the position shown, or one
    of the two exceptions is raised while it is built. *)
Inductive Titulo : Type :=
| TituloPuesto (paso total : Z) (progreso : Q) (posicion : Z * Z)
| LanzaZeroDivisionError
| LanzaIndexError.

(** One call of [animate]: the data given to [line.set_data], the data
    given to [point.set_data] when it is called, and the title. *)
Record Cuadro : Type := mkCuadro {
  linea : list Z * list Z;
  punto : option (list Z * list Z);
  titulo : Titulo
}.

(** [animate(frame)], for the [camino] of the enclosing call.  The progress
    [(frame / len(camino)) * 100] is kept as the exact rational. *)
Definition animate (camino : list Posicion) (frame : Z) : Cuadro :=
  let camino_actual := hasta camino (frame + 1) in
  let xs := map fst camino_actual in
  let ys := map snd camino_actual in
  mkCuadro
    (xs, ys)
    (if Z.of_nat (length camino_actual) >? 0
     then Some ([last xs 0], [last ys 0])
     else None)
    (if Z.of_nat (length camino) =? 0 then LanzaZeroDivisionError
     else match ultimo xs, ultimo ys with
          | Some x, Some y =>
              TituloPuesto frame (Z.of_nat (length camino) - 1)
                (inject_Z frame / inject_Z (Z.of_nat (length camino))
                 * inject_Z 100)%Q
                (x, y)
          | _, _ => LanzaIndexError
          end).

(** [FuncAnimation(..., frames=len(camino))] asks for the frames
    [0, 1, ..., len(camino) - 1]. *)
Definition cuadros (camino : list Posicion) : list Cuadro :=
  map (fun i => animate camino (Z.of_nat i)) (seq 0 (length camino)).

(** What [visualizar_camino_estatico] draws: the two axis ranges, the line
    when there is one, the two markers, and the numbers of the title. *)
Record Grafico : Type := mkGrafico {
  xlim : Z * Z;
  ylim : Z * Z;
  trazo : option (list Z * list Z);
  marca_inicio : Z * Z;
  marca_fin : Z * Z;
  cifras : Z * Z * Flotante
}.

Definition visualizar_camino_estatico (estadisticas : Est.t)
    (entorno : Entorno) : Grafico :=
  let camino := Est.camino estadisticas in
  let pos_inicial := Est.posicion_inicial estadisticas in
  let pos_final := Est.posicion_final estadisticas in
  mkGrafico
    (-1, ancho entorno)
    (-1, alto entorno)
    (if Z.of_nat (length camino) >? 1
     then Some (map fst camino, map snd camino)
     else None)
    (fst pos_inicial, snd pos_inicial)
    (fst pos_final, snd pos_final)
    (Est.pasos_realizados estadisticas,
     Est.intentos_bloqueados estadisticas,
     Est.distancia_euclidiana estadisticas).

End Vis.

(** [rw'] continues [rw]: same region, the path of [rw] followed by one
    position for each step counted since, and no fewer blocked attempts. *)
Definition continua_a (rw rw' : RandomWalk) : Prop :=
  entorno rw' = entorno rw /\
  (exists l, camino rw' = camino rw ++ l /\
             Z.of_nat (length l) = pasos_realizados rw' - pasos_realizados rw) /\
  intentos_bloqueados rw <= intentos_bloqueados rw'.

(** The Manhattan distance from the start of the region to the position. *)
Definition manhattan (rw : RandomWalk) : Z :=
  Z.abs (fst (posicion_actual rw) - fst (pos_inicial (entorno rw)))
  + Z.abs (snd (posicion_actual rw) - snd (pos_inicial (entorno rw))).

(** Between [(rw, az)] and [(rw', az')] the generator is the same sequence
    and every draw taken from it is accounted for, as a step counted or as
    an attempt blocked. *)
Definition sorteos_cuadran (rw : RandomWalk) (az : Azar)
    (rw' : RandomWalk) (az' : Azar) : Prop :=
  fuente az' = fuente az /\
  Z.of_nat (cursor az') - Z.of_nat (cursor az)
  = (pasos_realizados rw' - pasos_realizados rw)
    + (intentos_bloqueados rw' - intentos_bloqueados rw).

(** * Properties *)

(** ** The region *)

Lemma es_posicion_valida_spec (e : Entorno) (x y : Z) :
  es_posicion_valida e x y = true <-> (0 <= x < ancho e /\ 0 <= y < alto e).
Proof.
  unfold es_posicion_valida.
  rewrite !andb_true_iff, !Z.leb_le, !Z.ltb_lt. tauto.
Qed.

(** ** One turn of the retry loop *)

Lemma bucle_intentos_eq (max_intentos intentos_locales : Z)
    (rw : RandomWalk) (az : Azar) :
  bucle_intentos max_intentos intentos_locales rw az =
  if intentos_locales <? max_intentos then
    let '(direccion, az1) := _obtener_direccion_aleatoria az in
    let nueva := nueva_posicion rw direccion in
    if es_posicion_valida (entorno rw) (fst nueva) (snd nueva)
    then (true, mover rw nueva, az1)
    else bucle_intentos max_intentos (intentos_locales + 1) (bloquear rw) az1
  else (false, rw, az).
Proof.
  rewrite bucle_intentos_equation_1.
  destruct (inspect (intentos_locales <? max_intentos)) as [b e].
  destruct b; cbn; rewrite e; reflexivity.
Qed.

Lemma sorteo_eq (az : Azar) :
  _obtener_direccion_aleatoria az = (direccion_sorteada az 0, avanzar az 1).
Proof.
  destruct az as [f c].
  unfold direccion_sorteada, avanzar, _obtener_direccion_aleatoria, choice,
    randbelow; cbn [fuente cursor fst].
  rewrite Nat.add_0_r, Nat.add_1_r. reflexivity.
Qed.

Lemma avanzar_avanzar (az : Azar) (n m : nat) :
  avanzar (avanzar az n) m = avanzar az (n + m).
Proof. unfold avanzar; cbn. now rewrite Nat.add_assoc. Qed.

Lemma candidata_valida_bloquear (rw : RandomWalk) (az : Azar) (j : nat) :
  candidata_valida (bloquear rw) (avanzar az 1) j
  = candidata_valida rw az (S j).
Proof.
  unfold candidata_valida, candidata, direccion_sorteada.
  now rewrite avanzar_avanzar.
Qed.

Lemma candidata_bloquear (rw : RandomWalk) (az : Azar) (j : nat) :
  candidata (bloquear rw) (avanzar az 1) j = candidata rw az (S j).
Proof.
  unfold candidata, direccion_sorteada. now rewrite avanzar_avanzar.
Qed.

Lemma con_bloqueos_bloquear (rw : RandomWalk) (k : nat) :
  con_bloqueos (bloquear rw) (Z.of_nat k) = con_bloqueos rw (Z.of_nat (S k)).
Proof.
  unfold con_bloqueos, bloquear; cbn. f_equal. lia.
Qed.

Lemma con_bloqueos_0 (rw : RandomWalk) : con_bloqueos rw 0 = rw.
Proof.
  destruct rw; unfold con_bloqueos; cbn. f_equal. lia.
Qed.

Lemma avanzar_0 (az : Azar) : avanzar az 0 = az.
Proof. destruct az; unfold avanzar; cbn. now rewrite Nat.add_0_r. Qed.

(** [k] blocked draws followed by a valid one, with budget left for it. *)
Lemma bucle_intentos_exito (k : nat) :
  forall (max_intentos intentos_locales : Z) (rw : RandomWalk) (az : Azar),
    intentos_locales + Z.of_nat k < max_intentos ->
    (forall j, (j < k)%nat -> candidata_valida rw az j = false) ->
    candidata_valida rw az k = true ->
    bucle_intentos max_intentos intentos_locales rw az
    = (true,
       mover (con_bloqueos rw (Z.of_nat k)) (candidata rw az k),
       avanzar az (S k)).
Proof.
  induction k as [|k IH]; intros m i rw az Hlt Hinv Hval.
  - rewrite bucle_intentos_eq, sorteo_eq.
    replace (i <? m) with true by (symmetry; apply Z.ltb_lt; lia).
    fold (candidata rw az 0). fold (candidata_valida rw az 0).
    cbv zeta. unfold candidata_valida in Hval |- *. rewrite Hval.
    now rewrite con_bloqueos_0.
  - rewrite bucle_intentos_eq, sorteo_eq.
    replace (i <? m) with true by (symmetry; apply Z.ltb_lt; lia).
    cbv zeta. pose proof (Hinv 0%nat (Nat.lt_0_succ k)) as H0.
    unfold candidata_valida, candidata in H0. rewrite H0.
    rewrite (IH m (i + 1) (bloquear rw) (avanzar az 1)).
    + rewrite con_bloqueos_bloquear, candidata_bloquear, avanzar_avanzar.
      reflexivity.
    + lia.
    + intros j Hj. rewrite candidata_valida_bloquear. apply Hinv. lia.
    + now rewrite candidata_valida_bloquear.
Qed.

(** Every draw the budget allows is blocked. *)
Lemma bucle_intentos_agotado (n : nat) :
  forall (max_intentos intentos_locales : Z) (rw : RandomWalk) (az : Azar),
    Z.to_nat (max_intentos - intentos_locales) = n ->
    (forall j, (j < n)%nat -> candidata_valida rw az j = false) ->
    bucle_intentos max_intentos intentos_locales rw az
    = (false, con_bloqueos rw (Z.of_nat n), avanzar az n).
Proof.
  induction n as [|n IH]; intros m i rw az Hn Hinv.
  - rewrite bucle_intentos_eq.
    replace (i <? m) with false by (symmetry; apply Z.ltb_ge; lia).
    now rewrite con_bloqueos_0, avanzar_0.
  - rewrite bucle_intentos_eq, sorteo_eq.
    replace (i <? m) with true by (symmetry; apply Z.ltb_lt; lia).
    cbv zeta. pose proof (Hinv 0%nat (Nat.lt_0_succ n)) as H0.
    unfold candidata_valida, candidata in H0. rewrite H0.
    rewrite (IH m (i + 1) (bloquear rw) (avanzar az 1)).
    + rewrite con_bloqueos_bloquear, avanzar_avanzar. reflexivity.
    + lia.
    + intros j Hj. rewrite candidata_valida_bloquear. apply Hinv. lia.
Qed.

Lemma direccion_sorteada_In (az : Azar) (j : nat) :
  In (direccion_sorteada az j) DIRECCIONES.
Proof.
  unfold direccion_sorteada, _obtener_direccion_aleatoria, choice, randbelow.
  cbn [fst]. apply nth_In. apply Nat.mod_upper_bound. discriminate.
Qed.

(** ** Properties kept by every operation

    A property of the engine that survives a blocked attempt, a committed
    move to a valid neighbour and a reset survives every call. *)
Section Conservacion.

Variable P : RandomWalk -> Prop.

Hypothesis P_bloquear : forall rw, P rw -> P (bloquear rw).

Hypothesis P_mover :
  forall rw d,
    P rw -> In d DIRECCIONES ->
    valida (entorno rw) (nueva_posicion rw d) = true ->
    P (mover rw (nueva_posicion rw d)).

Hypothesis P_reiniciar : forall rw, P rw -> P (reiniciar rw).

Lemma bucle_intentos_conserva (n : nat) :
  forall max_intentos intentos_locales rw az,
    Z.to_nat (max_intentos - intentos_locales) = n ->
    P rw ->
    P (snd (fst (bucle_intentos max_intentos intentos_locales rw az))).
Proof.
  induction n as [|n IH]; intros m i rw az Hn HP;
    rewrite bucle_intentos_eq.
  - replace (i <? m) with false by (symmetry; apply Z.ltb_ge; lia).
    exact HP.
  - replace (i <? m) with true by (symmetry; apply Z.ltb_lt; lia).
    rewrite sorteo_eq. cbv zeta.
    destruct (es_posicion_valida _ _ _) eqn:Hv.
    + cbn [fst snd]. apply P_mover; auto using direccion_sorteada_In.
    + apply IH; [lia | auto].
Qed.

Lemma realizar_paso_conserva max_intentos rw az :
  P rw -> P (snd (fst (realizar_paso max_intentos rw az))).
Proof.
  intros HP. unfold realizar_paso.
  now apply (bucle_intentos_conserva (Z.to_nat (max_intentos - 0))).
Qed.

Lemma bucle_pasos_conserva (restantes : nat) :
  forall mostrar_progreso mostrar_cada rw az,
    P rw ->
    P (snd (fst (bucle_pasos restantes mostrar_progreso mostrar_cada rw az))).
Proof.
  induction restantes as [|r IH]; intros mp mc rw az HP; cbn [bucle_pasos].
  - exact HP.
  - pose proof (realizar_paso_conserva max_intentos_por_defecto rw az HP)
      as H1.
    destruct (realizar_paso max_intentos_por_defecto rw az)
      as [[exito rw1] az1].
    cbn [fst snd] in H1.
    destruct exito; cbn [negb]; [|exact H1].
    destruct (negb mp && (mc =? 0)); [exact H1 | now apply IH].
Qed.

Lemma simular_conserva num_pasos mostrar_progreso mostrar_cada rw az :
  P rw ->
  P (snd (fst (simular num_pasos mostrar_progreso mostrar_cada rw az))).
Proof.
  intros HP. unfold simular.
  pose proof (bucle_pasos_conserva (Z.to_nat num_pasos)
                mostrar_progreso mostrar_cada rw az HP) as H1.
  destruct (bucle_pasos _ _ _ _ _) as [[r rw'] az'].
  destruct r; exact H1.
Qed.

Lemma ejecutar_conserva op rw az :
  P rw -> P (fst (ejecutar op rw az)).
Proof.
  intros HP. destruct op as [m | n mp mc | | ]; cbn [ejecutar].
  - pose proof (realizar_paso_conserva m rw az HP) as H1.
    destruct (realizar_paso m rw az) as [[b rw'] az']. exact H1.
  - pose proof (simular_conserva n mp mc rw az HP) as H1.
    destruct (simular n mp mc rw az) as [[r rw'] az']. exact H1.
  - exact HP.
  - now apply P_reiniciar.
Qed.

Lemma ejecutar_todas_conserva ops :
  forall rw az, P rw -> P (fst (ejecutar_todas ops rw az)).
Proof.
  induction ops as [|op ops IH]; intros rw az HP; cbn [ejecutar_todas].
  - exact HP.
  - pose proof (ejecutar_conserva op rw az HP) as H1.
    destruct (ejecutar op rw az) as [rw' az']. now apply IH.
Qed.

End Conservacion.

(** ** The path *)

Lemma continuo_unitario (p : Posicion) : continuo [p].
Proof. intros i a b Ha Hb. destruct i; discriminate. Qed.

Lemma continuo_anadir (l : list Posicion) (p c : Posicion) :
  continuo (l ++ [p]) -> paso_unitario p c -> continuo ((l ++ [p]) ++ [c]).
Proof.
  intros Hl Hpc i a b Ha Hb.
  assert (Hlen : length (l ++ [p]) = S (length l))
    by (rewrite length_app; cbn; lia).
  destruct (Nat.lt_trichotomy (S i) (length (l ++ [p]))) as [Hlt | [Heq | Hgt]].
  - rewrite nth_error_app1 in Ha, Hb by lia. exact (Hl i a b Ha Hb).
  - assert (i = length l) by lia. subst i.
    rewrite nth_error_app1 in Ha by lia.
    rewrite nth_error_app2, Nat.sub_diag in Ha by lia.
    rewrite nth_error_app2 in Hb by lia.
    rewrite Hlen, Nat.sub_diag in Hb.
    cbn in Ha, Hb. injection Ha as <-. injection Hb as <-. exact Hpc.
  - assert (Hnone : nth_error ((l ++ [p]) ++ [c]) (S i) = None).
    { apply nth_error_None. rewrite length_app; cbn. lia. }
    congruence.
Qed.

Lemma paso_unitario_nueva_posicion (rw : RandomWalk) (d : Z * Z) :
  In d DIRECCIONES -> paso_unitario (posicion_actual rw) (nueva_posicion rw d).
Proof.
  intros Hd. unfold paso_unitario, nueva_posicion. destruct d as [dx dy].
  cbn [fst snd].
  replace (fst (posicion_actual rw) + dx - fst (posicion_actual rw))
    with dx by lia.
  replace (snd (posicion_actual rw) + dy - snd (posicion_actual rw))
    with dy by lia.
  exact Hd.
Qed.

Lemma camino_bien_formado_init (e : Entorno) :
  camino_bien_formado e (RandomWalk_init e).
Proof.
  unfold camino_bien_formado, RandomWalk_init; cbn.
  repeat split.
  - now exists [].
  - now exists [].
  - constructor.
  - apply continuo_unitario.
Qed.

Lemma camino_bien_formado_bloquear (e : Entorno) (rw : RandomWalk) :
  camino_bien_formado e rw -> camino_bien_formado e (bloquear rw).
Proof. unfold camino_bien_formado, bloquear; cbn. tauto. Qed.

Lemma camino_bien_formado_reiniciar (e : Entorno) (rw : RandomWalk) :
  camino_bien_formado e rw -> camino_bien_formado e (reiniciar rw).
Proof.
  intros [He _]. unfold reiniciar. rewrite He.
  apply camino_bien_formado_init.
Qed.

Lemma camino_bien_formado_mover (e : Entorno) (rw : RandomWalk) (d : Z * Z) :
  camino_bien_formado e rw ->
  In d DIRECCIONES ->
  valida (entorno rw) (nueva_posicion rw d) = true ->
  camino_bien_formado e (mover rw (nueva_posicion rw d)).
Proof.
  intros (He & Hlen & [l0 Hcab] & [l1 Hult] & Hcola & Hcont) Hd Hv.
  unfold camino_bien_formado, mover; cbn [entorno camino pasos_realizados
    posicion_actual].
  repeat split.
  - exact He.
  - rewrite length_app; cbn [length]. lia.
  - exists (l0 ++ [nueva_posicion rw d]). now rewrite Hcab.
  - now exists (camino rw).
  - rewrite Hcab in Hcola |- *. cbn [tl app] in Hcola |- *.
    apply Forall_app; split; [exact Hcola|].
    constructor; [now rewrite <- He | constructor].
  - rewrite Hult in Hcont |- *. apply continuo_anadir; [exact Hcont|].
    now apply paso_unitario_nueva_posicion.
Qed.

(** The path is well formed after any sequence of calls, over any region
    the constructor was given. *)
Lemma camino_bien_formado_motor_tras (e : Entorno) (ops : list Operacion)
    (az : Azar) :
  camino_bien_formado e (motor_tras e ops az).
Proof.
  unfold motor_tras.
  apply (ejecutar_todas_conserva (camino_bien_formado e)).
  - apply camino_bien_formado_bloquear.
  - apply camino_bien_formado_mover.
  - apply camino_bien_formado_reiniciar.
  - apply camino_bien_formado_init.
Qed.

(** ** [realizar_paso] *)

(** C1.  For every engine, generator and retry budget: when the first [k]
    draws of a step call give candidates outside the region and the next
    draw, still within the budget, gives a candidate inside it, the call
    returns [True] with the position set to that candidate, the candidate
    appended to the path and the step counter one higher; each of the [k]
    rejected candidates added exactly one to the blocked counter and left
    position, path and step counter alone; and the generator was drawn from
    [k + 1] times, so nothing is sampled after the valid candidate. *)
Theorem realizar_paso_primer_valido
    (max_intentos : Z) (rw : RandomWalk) (az : Azar) (k : nat) :
  Z.of_nat k < max_intentos ->
  (forall j, (j < k)%nat -> candidata_valida rw az j = false) ->
  candidata_valida rw az k = true ->
  realizar_paso max_intentos rw az
  = (true,
     mkRandomWalk (entorno rw)
                  (candidata rw az k)
                  (camino rw ++ [candidata rw az k])
                  (pasos_realizados rw + 1)
                  (intentos_bloqueados rw + Z.of_nat k),
     mkAzar (fuente az) (cursor az + (k + 1))).
Proof.
  intros Hk Hinv Hval. unfold realizar_paso.
  rewrite (bucle_intentos_exito k) by (auto; lia).
  unfold mover, con_bloqueos, avanzar; cbn [entorno camino pasos_realizados
    intentos_bloqueados].
  now rewrite Nat.add_1_r.
Qed.

Lemma realizar_paso_primer_valido_witness :
  let rw := RandomWalk_init (Entorno_init 2 1 (Some (0, 0))) in
  let az := azar_de [0; 1; 3; 2]%nat in
  Z.of_nat 2 < 3 /\
  (forall j, (j < 2)%nat -> candidata_valida rw az j = false) /\
  candidata_valida rw az 2 = true /\
  realizar_paso 3 rw az
  = (true,
     mkRandomWalk (Entorno_init 2 1 (Some (0, 0))) (1, 0) [(0, 0); (1, 0)] 1 2,
     mkAzar (fuente az) 3).
Proof.
  intros rw az.
  assert (H1 : Z.of_nat 2 < 3) by reflexivity.
  assert (H2 : forall j, (j < 2)%nat -> candidata_valida rw az j = false).
  { intros [|[|j]] Hj; [reflexivity | reflexivity | lia]. }
  assert (H3 : candidata_valida rw az 2 = true) by reflexivity.
  split; [exact H1 | split; [exact H2 | split; [exact H3 |]]].
  exact (realizar_paso_primer_valido 3 rw az 2 H1 H2 H3).
Defined.

(** On the region of one cell no candidate is ever valid. *)
Lemma sin_salida_1x1 (rw : RandomWalk) (d : Z * Z) :
  entorno rw = Entorno_init 1 1 (Some (0, 0)) ->
  posicion_actual rw = (0, 0) ->
  In d DIRECCIONES ->
  valida (entorno rw) (nueva_posicion rw d) = false.
Proof.
  intros He Hp Hd. unfold valida, nueva_posicion. rewrite He, Hp.
  cbn in Hd. destruct Hd as [<- | [<- | [<- | [<- | []]]]]; reflexivity.
Qed.

(** The engine over the one-cell region never leaves its start and never
    counts a step. *)
Lemma motor_1x1 (ops : list Operacion) (az : Azar) :
  let rw := motor_tras (Entorno_init 1 1 (Some (0, 0))) ops az in
  entorno rw = Entorno_init 1 1 (Some (0, 0)) /\
  posicion_actual rw = (0, 0) /\
  pasos_realizados rw = 0.
Proof.
  unfold motor_tras.
  apply (ejecutar_todas_conserva
           (fun rw => entorno rw = Entorno_init 1 1 (Some (0, 0)) /\
                      posicion_actual rw = (0, 0) /\
                      pasos_realizados rw = 0)).
  - unfold bloquear; cbn. tauto.
  - intros rw d (He & Hp & _) Hd Hv.
    rewrite (sin_salida_1x1 rw d He Hp Hd) in Hv. discriminate.
  - intros rw (He & _ & _). unfold reiniciar; cbn. rewrite He. auto.
  - cbn. auto.
Qed.

Lemma realizar_paso_agotado (max_intentos : Z) (rw : RandomWalk) (az : Azar) :
  0 <= max_intentos ->
  (forall j, (j < Z.to_nat max_intentos)%nat ->
             candidata_valida rw az j = false) ->
  realizar_paso max_intentos rw az
  = (false, con_bloqueos rw max_intentos, avanzar az (Z.to_nat max_intentos)).
Proof.
  intros Hm Hinv. unfold realizar_paso.
  rewrite (bucle_intentos_agotado (Z.to_nat max_intentos)).
  - now rewrite Z2Nat.id.
  - f_equal. lia.
  - exact Hinv.
Qed.

(** C2.  For every engine and every positive budget: when the first
    [max_intentos] draws of a step call all give candidates outside the
    region, the call returns [False]; region, position, path and step
    counter are those from before the call and the blocked counter is
    higher by exactly [max_intentos].  On the region of width 1 and height
    1 with start (0,0), after any sequence of calls the step counter is 0
    and a step call with budget 50 returns [False], changes nothing but the
    blocked counter and raises that one by exactly 50. *)
Theorem realizar_paso_agotado_deja_estado :
  (forall (max_intentos : Z) (rw : RandomWalk) (az : Azar),
      0 < max_intentos ->
      (forall j, (j < Z.to_nat max_intentos)%nat ->
                 candidata_valida rw az j = false) ->
      realizar_paso max_intentos rw az
      = (false,
         mkRandomWalk (entorno rw) (posicion_actual rw) (camino rw)
                      (pasos_realizados rw)
                      (intentos_bloqueados rw + max_intentos),
         mkAzar (fuente az) (cursor az + Z.to_nat max_intentos)))
  /\
  (forall (ops : list Operacion) (az az' : Azar),
      let rw := motor_tras (Entorno_init 1 1 (Some (0, 0))) ops az in
      pasos_realizados rw = 0 /\
      realizar_paso 50 rw az'
      = (false,
         mkRandomWalk (entorno rw) (posicion_actual rw) (camino rw)
                      0 (intentos_bloqueados rw + 50),
         mkAzar (fuente az') (cursor az' + 50))).
Proof.
  split.
  - intros m rw az Hm Hinv.
    now rewrite realizar_paso_agotado by (auto; lia).
  - intros ops az az' rw.
    destruct (motor_1x1 ops az) as (He & Hp & Hs). fold rw in He, Hp, Hs.
    split; [exact Hs|].
    rewrite realizar_paso_agotado.
    + unfold con_bloqueos, avanzar. now rewrite Hs.
    + lia.
    + intros j _. unfold candidata_valida.
      apply (sin_salida_1x1 rw (direccion_sorteada az' j) He Hp).
      apply direccion_sorteada_In.
Qed.

Lemma realizar_paso_agotado_deja_estado_witness :
  let rw := RandomWalk_init (Entorno_init 3 1 (Some (0, 0))) in
  let az := azar_de [0; 1; 2; 3]%nat in
  0 < 3 /\
  (forall j, (j < Z.to_nat 3)%nat -> candidata_valida rw az j = false) /\
  realizar_paso 3 rw az
  = (false,
     mkRandomWalk (Entorno_init 3 1 (Some (0, 0))) (0, 0) [(0, 0)] 0 3,
     mkAzar (fuente az) 3).
Proof.
  intros rw az.
  assert (H1 : 0 < 3) by reflexivity.
  assert (H2 : forall j, (j < Z.to_nat 3)%nat ->
                         candidata_valida rw az j = false).
  { intros [|[|[|j]]] Hj; [reflexivity | reflexivity | reflexivity |].
    exfalso. change (Z.to_nat 3) with 3%nat in Hj. lia. }
  split; [exact H1 | split; [exact H2 |]].
  exact (proj1 realizar_paso_agotado_deja_estado 3 rw az H1 H2).
Defined.

(** C10.  For every engine and generator, a step call with a budget of zero
    or less returns [False] at once: the engine, blocked counter included,
    and the generator are those from before the call. *)
Theorem realizar_paso_sin_presupuesto
    (max_intentos : Z) (rw : RandomWalk) (az : Azar) :
  max_intentos <= 0 ->
  realizar_paso max_intentos rw az = (false, rw, az).
Proof.
  intros Hm. unfold realizar_paso. rewrite bucle_intentos_eq.
  replace (0 <? max_intentos) with false
    by (symmetry; apply Z.ltb_ge; lia).
  reflexivity.
Qed.

Lemma realizar_paso_sin_presupuesto_witness :
  let rw := RandomWalk_init (Entorno_init 10 10 None) in
  let az := azar_de [3; 1]%nat in
  -2 <= 0 /\ realizar_paso (-2) rw az = (false, rw, az).
Proof.
  intros rw az.
  assert (H : -2 <= 0) by (intro Hc; discriminate Hc).
  split; [exact H|].
  exact (realizar_paso_sin_presupuesto (-2) rw az H).
Defined.

(** ** Invariants of the path *)

Lemma ultimo_de_anadido (l : list Posicion) (p : Posicion) :
  nth_error (l ++ [p]) (length (l ++ [p]) - 1) = Some p.
Proof.
  rewrite length_app; cbn [length].
  replace (length l + 1 - 1)%nat with (length l) by lia.
  rewrite nth_error_app2, Nat.sub_diag by lia. reflexivity.
Qed.

(** The constructor stores an explicit start without looking at it: over a
    region of 5 by 5 with start (10,10) the path of the new engine holds
    (10,10), which the validity predicate rejects. *)
Lemma invariantes_camino_counterexample :
  ~ invariantes_camino
      (motor_tras (Entorno_init 5 5 (Some (10, 10))) [] (azar_de [])).
Proof.
  intros (_ & _ & _ & Hval).
  inversion Hval as [|p l Hp _]. discriminate Hp.
Qed.

(** C3 (amended).  For every region whose start satisfies the validity
    predicate, and every engine reached from construction by any sequence
    of step, simulate, statistics and reset calls: the path has one element
    more than the step counter says, its first element is the start, its
    last element is the current position, and every element satisfies the
    region's validity predicate. *)
Theorem invariantes_camino_motor_tras
    (e : Entorno) (ops : list Operacion) (az : Azar) :
  valida e (pos_inicial e) = true ->
  invariantes_camino (motor_tras e ops az).
Proof.
  intros Hstart.
  destruct (camino_bien_formado_motor_tras e ops az)
    as (He & Hlen & [l0 Hcab] & [l1 Hult] & Hcola & _).
  unfold invariantes_camino. rewrite He.
  split; [exact Hlen|]. split; [now rewrite Hcab|]. split.
  - rewrite Hult at 1 2. apply ultimo_de_anadido.
  - rewrite Hcab in Hcola |- *. constructor; [exact Hstart | exact Hcola].
Qed.

Lemma invariantes_camino_motor_tras_witness :
  let e := Entorno_init 10 10 None in
  let ops := [op_realizar_paso 1000; op_simular 3 true 10;
              op_obtener_estadisticas] in
  let az := azar_de [0; 0; 3; 1; 2; 2]%nat in
  valida e (pos_inicial e) = true /\
  invariantes_camino (motor_tras e ops az).
Proof.
  intros e ops az.
  assert (H : valida e (pos_inicial e) = true) by reflexivity.
  split; [exact H|].
  exact (invariantes_camino_motor_tras e ops az H).
Defined.

(** C4.  For every region, every engine reached from construction by any
    sequence of calls and every index [i > 0] into its path: [camino[i]]
    minus [camino[i-1]] is one of (0,-1), (0,1), (-1,0), (1,0). *)
Theorem camino_continuo
    (e : Entorno) (ops : list Operacion) (az : Azar)
    (i : nat) (p q : Posicion) :
  (0 < i)%nat ->
  nth_error (camino (motor_tras e ops az)) (i - 1) = Some p ->
  nth_error (camino (motor_tras e ops az)) i = Some q ->
  In (fst q - fst p, snd q - snd p) [ (0, -1); (0, 1); (-1, 0); (1, 0) ].
Proof.
  intros Hi Hp Hq.
  destruct (camino_bien_formado_motor_tras e ops az)
    as (_ & _ & _ & _ & _ & Hcont).
  destruct i as [|i]; [lia|].
  replace (S i - 1)%nat with i in Hp by lia.
  exact (Hcont i p q Hp Hq).
Qed.

Lemma camino_continuo_witness :
  let e := Entorno_init 10 10 None in
  let ops := [op_realizar_paso 1000; op_simular 3 true 10] in
  let az := azar_de [0; 0; 3; 1; 2; 2]%nat in
  (0 < 3)%nat /\
  nth_error (camino (motor_tras e ops az)) (3 - 1) = Some (5, 3) /\
  nth_error (camino (motor_tras e ops az)) 3 = Some (6, 3) /\
  In (fst (6, 3) - fst (5, 3), snd (6, 3) - snd (5, 3))
     [ (0, -1); (0, 1); (-1, 0); (1, 0) ].
Proof.
  intros e ops az.
  assert (H0 : (0 < 3)%nat) by lia.
  assert (H1 : nth_error (camino (motor_tras e ops az)) (3 - 1) = Some (5, 3))
    by (vm_compute; reflexivity).
  assert (H2 : nth_error (camino (motor_tras e ops az)) 3 = Some (6, 3))
    by (vm_compute; reflexivity).
  split; [exact H0 | split; [exact H1 | split; [exact H2 |]]].
  exact (camino_continuo e ops az 3 (5, 3) (6, 3) H0 H1 H2).
Defined.

(** ** [reiniciar] *)

(** C6.  For every region and every engine reached from construction by
    any sequence of calls, [reiniciar] gives the state of a newly built
    engine over the same region: position at the start, path holding the
    start alone, both counters zero.  [reiniciar] is a total function: it
    has no failing case. *)
Theorem reiniciar_como_nuevo
    (e : Entorno) (ops : list Operacion) (az : Azar) :
  reiniciar (motor_tras e ops az) = RandomWalk_init e /\
  RandomWalk_init e = mkRandomWalk e (pos_inicial e) [pos_inicial e] 0 0.
Proof.
  destruct (camino_bien_formado_motor_tras e ops az) as (He & _).
  unfold reiniciar. rewrite He. split; reflexivity.
Qed.

(** ** [es_posicion_valida] *)

(** C7.  For every region and every pair of integers [(x, y)],
    [es_posicion_valida] answers [True] exactly when [0 <= x < ancho] and
    [0 <= y < alto], where [ancho] and [alto] are the dimensions the region
    was built with.  The method assigns to nothing: it is a function of
    the region and the coordinates, and the region it is asked about is
    the region afterwards. *)
Theorem es_posicion_valida_correcta :
  (forall (e : Entorno) (x y : Z),
      es_posicion_valida e x y = true
      <-> (0 <= x < ancho e /\ 0 <= y < alto e))
  /\
  (forall (w h : Z) (inicio : option Posicion) (x y : Z),
      es_posicion_valida (Entorno_init w h inicio) x y = true
      <-> (0 <= x < w /\ 0 <= y < h)).
Proof.
  split.
  - apply es_posicion_valida_spec.
  - intros w h inicio x y.
    apply (es_posicion_valida_spec (Entorno_init w h inicio)).
Qed.

(** ** [simular] *)

(** A step call adds one to the step counter when it returns [True] and
    leaves it alone when it returns [False]. *)
Lemma bucle_intentos_pasos (n : nat) :
  forall max_intentos intentos_locales rw az,
    Z.to_nat (max_intentos - intentos_locales) = n ->
    pasos_realizados
      (snd (fst (bucle_intentos max_intentos intentos_locales rw az)))
    = pasos_realizados rw
      + (if fst (fst (bucle_intentos max_intentos intentos_locales rw az))
         then 1 else 0).
Proof.
  induction n as [|n IH]; intros m i rw az Hn; rewrite bucle_intentos_eq.
  - replace (i <? m) with false by (symmetry; apply Z.ltb_ge; lia).
    cbn. lia.
  - replace (i <? m) with true by (symmetry; apply Z.ltb_lt; lia).
    rewrite sorteo_eq. cbv zeta.
    destruct (es_posicion_valida _ _ _).
    + reflexivity.
    + rewrite IH by lia. reflexivity.
Qed.

Lemma realizar_paso_pasos (max_intentos : Z) (rw rw' : RandomWalk)
    (az az' : Azar) (exito : bool) :
  realizar_paso max_intentos rw az = (exito, rw', az') ->
  pasos_realizados rw' = pasos_realizados rw + (if exito then 1 else 0).
Proof.
  intros H.
  pose proof (bucle_intentos_pasos (Z.to_nat (max_intentos - 0))
                max_intentos 0 rw az eq_refl) as Hp.
  unfold realizar_paso in H. rewrite H in Hp. exact Hp.
Qed.

Lemma bucle_pasos_llamadas (restantes : nat) :
  forall (mostrar_progreso : bool) (mostrar_cada : Z) rw az,
    mostrar_progreso = true \/ mostrar_cada <> 0 ->
    exists (n : nat) (ok : bool) (rw' : RandomWalk) (az' : Azar),
      bucle_pasos restantes mostrar_progreso mostrar_cada rw az
      = (Retorna tt, rw', az') /\
      llamadas max_intentos_por_defecto (rw, az) n ok (rw', az') /\
      (n <= restantes)%nat /\
      (ok = true -> n = restantes) /\
      pasos_realizados rw' = pasos_realizados rw + exitos n ok.
Proof.
  induction restantes as [|r IH]; intros mp mc rw az Hd; cbn [bucle_pasos].
  - exists 0%nat, true, rw, az.
    repeat split; [constructor | lia | cbn; lia].
  - destruct (realizar_paso max_intentos_por_defecto rw az)
      as [[exito rw1] az1] eqn:Hpaso.
    pose proof (realizar_paso_pasos _ _ _ _ _ _ Hpaso) as Hcuenta.
    destruct exito; cbn [negb].
    + assert (Hcond : negb mp && (mc =? 0) = false).
      { destruct Hd as [-> | Hmc]; [reflexivity|].
        apply andb_false_iff. right. now apply Z.eqb_neq. }
      rewrite Hcond.
      destruct (IH mp mc rw1 az1 Hd)
        as (n & ok & rw' & az' & Heq & Hll & Hle & Htodos & Hp).
      exists (S n), ok, rw', az'.
      split; [exact Heq|].
      split; [exact (llamadas_exito _ _ _ _ _ _ _ _ Hpaso Hll)|].
      split; [lia|].
      split; [intros Hok; f_equal; auto|].
      rewrite Hp, Hcuenta. unfold exitos. destruct ok; lia.
    + exists 1%nat, false, rw1, az1.
      split; [reflexivity|].
      split; [exact (llamadas_fallo _ _ _ _ _ Hpaso)|].
      split; [lia|].
      split; [discriminate|].
      rewrite Hcuenta. unfold exitos. lia.
Qed.

(** [simular] has no parameter for the retry budget: on the region of 2 by
    1 with start (0,0), when the generator first points up and then right,
    [simular(1)] retries and commits the step to (1,0), which no run of
    step calls with budget 1 does. *)
Lemma simular_conduce_counterexample :
  ~ simular_conduce 1 1 true 10
      (RandomWalk_init (Entorno_init 2 1 (Some (0, 0))))
      (azar_de [0; 3]%nat).
Proof.
  intros (n & ok & rw' & az' & Hsim & Hll & _).
  assert (Hpasos : pasos_realizados rw' = 1).
  { transitivity
      (pasos_realizados
         (snd (fst (simular 1 true 10
                      (RandomWalk_init (Entorno_init 2 1 (Some (0, 0))))
                      (azar_de [0; 3]%nat))))).
    - now rewrite Hsim.
    - vm_compute. reflexivity. }
  inversion Hll as [s Hs | rw0 rw1 az0 az1 Hpaso
                   | rw0 rw1 az0 az1 m b s' Hpaso _]; subst.
  - discriminate Hpasos.
  - apply realizar_paso_pasos in Hpaso. rewrite Hpasos in Hpaso.
    discriminate Hpaso.
  - assert (Hfalla :
      fst (fst (realizar_paso 1
                  (RandomWalk_init (Entorno_init 2 1 (Some (0, 0))))
                  (azar_de [0; 3]%nat))) = false)
      by (vm_compute; reflexivity).
    rewrite Hpaso in Hfalla. discriminate Hfalla.
Qed.

(** C5 (amended).  For every [num_pasos], engine and generator, with the
    per-step display on (its default) or a summary interval other than
    zero: [simular(num_pasos)] calls the step operation one call after the
    other, every call with the retry budget 1000 (the step operation's
    default; [simular] takes no budget of its own), at most [num_pasos]
    times, makes no call after the first one that returns [False], and
    returns the statistics of the engine those calls leave, whose step
    counter went up by the number of calls that returned [True], which may
    be fewer than [num_pasos]. *)
Theorem simular_conduce_por_defecto
    (num_pasos : Z) (mostrar_progreso : bool) (mostrar_cada : Z)
    (rw : RandomWalk) (az : Azar) :
  mostrar_progreso = true \/ mostrar_cada <> 0 ->
  simular_conduce num_pasos 1000 mostrar_progreso mostrar_cada rw az.
Proof.
  intros Hd.
  destruct (bucle_pasos_llamadas (Z.to_nat num_pasos)
              mostrar_progreso mostrar_cada rw az Hd)
    as (n & ok & rw' & az' & Heq & Hll & Hle & Htodos & Hp).
  exists n, ok, rw', az'. unfold simular. rewrite Heq.
  repeat split; auto.
Qed.

Lemma simular_conduce_por_defecto_witness :
  let rw := RandomWalk_init (Entorno_init 10 10 None) in
  let az := azar_de [0; 3; 3; 1]%nat in
  (true = true \/ 10 <> 0) /\ simular_conduce 3 1000 true 10 rw az.
Proof.
  intros rw az.
  assert (H : true = true \/ 10 <> 0) by (left; reflexivity).
  split; [exact H|].
  exact (simular_conduce_por_defecto 3 true 10 rw az H).
Defined.

(** ** The statistics *)

(** The Manhattan distance of the snapshot, an integer, is
    [|x - x0| + |y - y0|] from the start to the current position. *)
Lemma distancia_manhattan_correcta (rw : RandomWalk) :
  Est.distancia_manhattan (obtener_estadisticas rw)
  = Z.abs (fst (posicion_actual rw) - fst (pos_inicial (entorno rw)))
    + Z.abs (snd (posicion_actual rw) - snd (pos_inicial (entorno rw))).
Proof.
  unfold obtener_estadisticas, _calcular_distancia_manhattan; cbn.
  destruct (pos_inicial (entorno rw)), (posicion_actual rw); reflexivity.
Qed.

(** The Euclidean distance of the snapshot is the power [0.5] of the exact
    integer [(x - x0)^2 + (y - y0)^2]. *)
Lemma distancia_euclidiana_radicando (rw : RandomWalk) :
  Est.distancia_euclidiana (obtener_estadisticas rw)
  = Potencia05
      ((fst (posicion_actual rw) - fst (pos_inicial (entorno rw))) ^ 2
       + (snd (posicion_actual rw) - snd (pos_inicial (entorno rw))) ^ 2).
Proof.
  unfold obtener_estadisticas, _calcular_distancia_euclidiana; cbn.
  destruct (pos_inicial (entorno rw)), (posicion_actual rw); reflexivity.
Qed.

(** Start (0,0), position (3,4): Manhattan distance 7, and the Euclidean
    distance is the power [0.5] of 25, the square of 5. *)
Lemma distancias_3_4 (w h : Z) (l : list Posicion) (pasos bloqueados : Z) :
  let rw := mkRandomWalk (Entorno_init w h (Some (0, 0))) (3, 4) l
                         pasos bloqueados in
  Est.distancia_manhattan (obtener_estadisticas rw) = 7 /\
  Est.distancia_euclidiana (obtener_estadisticas rw) = Potencia05 (5 ^ 2).
Proof. split; reflexivity. Qed.

(** ** The efficiency line *)

(** After one failed step call with budget 50 on the one-cell region the
    snapshot has 0 steps and 50 blocked attempts: the denominator is 50,
    and no efficiency is computed. *)
Lemma eficiencia_counterexample :
  let est := obtener_estadisticas
               (motor_tras (Entorno_init 1 1 (Some (0, 0)))
                           [op_realizar_paso 50] (azar_de [])) in
  ~ ((exists q, eficiencia est = Calculada q)
     <-> Est.pasos_realizados est + Est.intentos_bloqueados est <> 0).
Proof.
  intros est [_ H].
  assert (Hden : Est.pasos_realizados est + Est.intentos_bloqueados est <> 0)
    by (vm_compute; discriminate).
  destruct (H Hden) as [q Hq].
  vm_compute in Hq. discriminate Hq.
Qed.

(** C9 (amended).  For every snapshot whose blocked counter is not
    negative: the efficiency is computed exactly when [pasos_realizados]
    is greater than 0; it is then [pasos_realizados / (pasos_realizados +
    intentos_bloqueados) * 100], and the denominator is not zero.  With 0
    steps it is not computed, whatever the denominator. *)
Theorem eficiencia_calculada_si_hay_pasos (est : Est.t) :
  0 <= Est.intentos_bloqueados est ->
  ((exists q, eficiencia est = Calculada q) <-> 0 < Est.pasos_realizados est)
  /\
  (0 < Est.pasos_realizados est ->
   eficiencia est
   = Calculada (inject_Z (Est.pasos_realizados est)
                / inject_Z (Est.pasos_realizados est
                            + Est.intentos_bloqueados est)
                * inject_Z 100)%Q
   /\ Est.pasos_realizados est + Est.intentos_bloqueados est <> 0)
  /\
  (Est.pasos_realizados est <= 0 -> eficiencia est = NoCalculada).
Proof.
  intros Hb. unfold eficiencia, formula_eficiencia.
  destruct (Z.gtb_spec (Est.pasos_realizados est) 0) as [Hpos | Hno].
  - assert (Hden : Est.pasos_realizados est + Est.intentos_bloqueados est <> 0)
      by lia.
    apply Z.eqb_neq in Hden. rewrite Hden. apply Z.eqb_neq in Hden.
    split; [split; [lia | eauto] |].
    split; [auto | lia].
  - split; [split; [intros [q Hq]; discriminate Hq | lia] |].
    split; [lia | reflexivity].
Qed.

Lemma eficiencia_calculada_si_hay_pasos_witness :
  let est := obtener_estadisticas
               (motor_tras (Entorno_init 2 1 (Some (0, 0)))
                           [op_realizar_paso 1000] (azar_de [0; 3]%nat)) in
  0 <= Est.intentos_bloqueados est /\
  eficiencia est = Calculada (inject_Z 1 / inject_Z (1 + 1) * inject_Z 100)%Q.
Proof.
  intros est.
  assert (H : 0 <= Est.intentos_bloqueados est)
    by (vm_compute; discriminate).
  split; [exact H|].
  assert (Hp : 0 < Est.pasos_realizados est) by (vm_compute; reflexivity).
  exact (proj1 (proj1 (proj2 (eficiencia_calculada_si_hay_pasos est H)) Hp)).
Defined.

(** * Further properties of the code *)

(** ** The region and the constructor *)

Lemma invariantes_de_bien_formado (e : Entorno) (rw : RandomWalk) :
  camino_bien_formado e rw ->
  valida e (pos_inicial e) = true ->
  invariantes_camino rw.
Proof.
  intros (He & Hlen & [l0 Hcab] & [l1 Hult] & Hcola & _) Hstart.
  unfold invariantes_camino. rewrite He.
  split; [exact Hlen|]. split; [now rewrite Hcab|]. split.
  - rewrite Hult at 1 2. apply ultimo_de_anadido.
  - rewrite Hcab in Hcola |- *. constructor; [exact Hstart | exact Hcola].
Qed.

(** X1.  When both dimensions are positive and no start is given, the
    start [(ancho // 2, alto // 2)] chosen by the constructor is inside the
    region, and the four invariants of the path hold after any sequence of
    calls. *)
Theorem entorno_por_defecto_centrado
    (w h : Z) (ops : list Operacion) (az : Azar) :
  0 < w -> 0 < h ->
  pos_inicial (Entorno_init w h None) = (w / 2, h / 2) /\
  es_posicion_valida (Entorno_init w h None) (w / 2) (h / 2) = true /\
  invariantes_camino (motor_tras (Entorno_init w h None) ops az).
Proof.
  intros Hw Hh.
  assert (Hv : es_posicion_valida (Entorno_init w h None) (w / 2) (h / 2)
               = true).
  { apply es_posicion_valida_spec. cbn [ancho alto Entorno_init].
    pose proof (Z.div_pos w 2). pose proof (Z.div_pos h 2).
    pose proof (Z.div_lt w 2). pose proof (Z.div_lt h 2). lia. }
  split; [reflexivity|]. split; [exact Hv|].
  apply (invariantes_de_bien_formado (Entorno_init w h None)).
  - apply camino_bien_formado_motor_tras.
  - exact Hv.
Qed.

Lemma entorno_por_defecto_centrado_witness :
  let ops := [op_simular 2 false 10; op_reiniciar; op_realizar_paso 5] in
  let az := azar_de [2; 2; 1; 0]%nat in
  0 < 7 /\ 0 < 4 /\
  pos_inicial (Entorno_init 7 4 None) = (7 / 2, 4 / 2) /\
  es_posicion_valida (Entorno_init 7 4 None) (7 / 2) (4 / 2) = true /\
  invariantes_camino (motor_tras (Entorno_init 7 4 None) ops az).
Proof.
  intros ops az.
  assert (H1 : 0 < 7) by reflexivity.
  assert (H2 : 0 < 4) by reflexivity.
  split; [exact H1 | split; [exact H2 |]].
  exact (entorno_por_defecto_centrado 7 4 ops az H1 H2).
Defined.

(** X2.  From a position inside a region that has more than one cell, at
    least one of the four directions leads to a position inside the region:
    a step call can only fail there because of the draws it got. *)
Theorem siempre_hay_salida (rw : RandomWalk) :
  valida (entorno rw) (posicion_actual rw) = true ->
  2 <= ancho (entorno rw) \/ 2 <= alto (entorno rw) ->
  exists d, In d DIRECCIONES /\
            valida (entorno rw) (nueva_posicion rw d) = true.
Proof.
  unfold valida, nueva_posicion. intros Hv Hdim.
  apply es_posicion_valida_spec in Hv.
  destruct (posicion_actual rw) as [x y]; cbn [fst snd] in *.
  destruct Hdim as [Hw | Hh].
  - destruct (Z.eq_dec x 0) as [-> | Hx].
    + exists (1, 0). split; [cbn; tauto|].
      apply es_posicion_valida_spec; cbn [fst snd]. lia.
    + exists (-1, 0). split; [cbn; tauto|].
      apply es_posicion_valida_spec; cbn [fst snd]. lia.
  - destruct (Z.eq_dec y 0) as [-> | Hy].
    + exists (0, 1). split; [cbn; tauto|].
      apply es_posicion_valida_spec; cbn [fst snd]. lia.
    + exists (0, -1). split; [cbn; tauto|].
      apply es_posicion_valida_spec; cbn [fst snd]. lia.
Qed.

Lemma siempre_hay_salida_witness :
  let rw := RandomWalk_init (Entorno_init 1 2 (Some (0, 1))) in
  valida (entorno rw) (posicion_actual rw) = true /\
  (2 <= ancho (entorno rw) \/ 2 <= alto (entorno rw)) /\
  exists d, In d DIRECCIONES /\
            valida (entorno rw) (nueva_posicion rw d) = true.
Proof.
  intros rw.
  assert (H1 : valida (entorno rw) (posicion_actual rw) = true)
    by reflexivity.
  assert (H2 : 2 <= ancho (entorno rw) \/ 2 <= alto (entorno rw))
    by (right; intro Hc; discriminate Hc).
  split; [exact H1 | split; [exact H2 |]].
  exact (siempre_hay_salida rw H1 H2).
Defined.

Lemma region_vacia (e : Entorno) (x y : Z) :
  ancho e <= 0 \/ alto e <= 0 -> es_posicion_valida e x y = false.
Proof.
  intros Hd. destruct (es_posicion_valida e x y) eqn:Hv; [|reflexivity].
  apply es_posicion_valida_spec in Hv. lia.
Qed.

(** X3.  Over a region with a dimension of zero or less no position is
    valid, whatever the start: a step call returns [False] after using up
    its budget, [max(max_intentos, 0)] draws, each counted as blocked; and
    [simular] with [num_pasos >= 1] stops after its first step call,
    leaving 1000 more blocked attempts and no step. *)
Theorem region_vacia_sin_pasos (rw : RandomWalk) (az : Azar) :
  ancho (entorno rw) <= 0 \/ alto (entorno rw) <= 0 ->
  (forall x y, es_posicion_valida (entorno rw) x y = false) /\
  (forall max_intentos,
      realizar_paso max_intentos rw az
      = (false,
         mkRandomWalk (entorno rw) (posicion_actual rw) (camino rw)
                      (pasos_realizados rw)
                      (intentos_bloqueados rw + Z.max max_intentos 0),
         mkAzar (fuente az) (cursor az + Z.to_nat max_intentos))) /\
  (forall num_pasos mostrar_progreso mostrar_cada,
      1 <= num_pasos ->
      let rw' := mkRandomWalk (entorno rw) (posicion_actual rw) (camino rw)
                              (pasos_realizados rw)
                              (intentos_bloqueados rw + 1000) in
      simular num_pasos mostrar_progreso mostrar_cada rw az
      = (Retorna (obtener_estadisticas rw'), rw',
         mkAzar (fuente az) (cursor az + 1000))).
Proof.
  intros Hd.
  assert (Hpaso : forall m,
    realizar_paso m rw az
    = (false, con_bloqueos rw (Z.max m 0), avanzar az (Z.to_nat m))).
  { intros m. unfold realizar_paso.
    rewrite (bucle_intentos_agotado (Z.to_nat m)).
    - do 2 f_equal. unfold con_bloqueos. f_equal. lia.
    - f_equal. lia.
    - intros j _. unfold candidata_valida. now apply region_vacia. }
  split; [intros x y; now apply region_vacia|].
  split; [exact Hpaso|].
  intros n mp mc Hn rw'. unfold simular.
  destruct (Z.to_nat n) as [|r] eqn:Hr; [lia|].
  cbn [bucle_pasos]. rewrite Hpaso. reflexivity.
Qed.

Lemma region_vacia_sin_pasos_witness :
  let rw := RandomWalk_init (Entorno_init 0 5 None) in
  let az := azar_de [1; 2; 3]%nat in
  (ancho (entorno rw) <= 0 \/ alto (entorno rw) <= 0) /\
  realizar_paso 3 rw az
  = (false,
     mkRandomWalk (Entorno_init 0 5 None) (0, 2) [(0, 2)] 0 3,
     mkAzar (fuente az) 3).
Proof.
  intros rw az.
  assert (H : ancho (entorno rw) <= 0 \/ alto (entorno rw) <= 0)
    by (left; intro Hc; discriminate Hc).
  split; [exact H|].
  exact (proj1 (proj2 (region_vacia_sin_pasos rw az H)) 3).
Defined.

(** ** The step call as a whole *)

Lemma primer_valido_o_ninguno (f : nat -> bool) (n : nat) :
  (exists k, (k < n)%nat /\ (forall j, (j < k)%nat -> f j = false)
             /\ f k = true)
  \/ (forall j, (j < n)%nat -> f j = false).
Proof.
  induction n as [|n [(k & Hk & Hpre & Hv) | Hnone]].
  - right. intros j Hj. lia.
  - left. exists k. repeat split; auto.
  - destruct (f n) eqn:Hn.
    + left. exists n. repeat split; auto.
    + right. intros j Hj.
      destruct (Nat.eq_dec j n) as [-> | Hne]; [exact Hn | apply Hnone; lia].
Qed.

(** Every step call is one of two: some draw within the budget is the first
    to give a valid candidate, or every draw within the budget is blocked. *)
Lemma realizar_paso_casos (max_intentos : Z) (rw : RandomWalk) (az : Azar) :
  (exists k : nat,
      Z.of_nat k < max_intentos /\
      candidata_valida rw az k = true /\
      realizar_paso max_intentos rw az
      = (true, mover (con_bloqueos rw (Z.of_nat k)) (candidata rw az k),
         avanzar az (S k)))
  \/
  ((forall j, (j < Z.to_nat max_intentos)%nat ->
              candidata_valida rw az j = false) /\
   realizar_paso max_intentos rw az
   = (false, con_bloqueos rw (Z.max max_intentos 0),
      avanzar az (Z.to_nat max_intentos))).
Proof.
  destruct (primer_valido_o_ninguno (candidata_valida rw az)
              (Z.to_nat max_intentos))
    as [(k & Hk & Hpre & Hv) | Hnone].
  - left. exists k. split; [lia|]. split; [exact Hv|].
    unfold realizar_paso. apply bucle_intentos_exito; auto. lia.
  - right. split; [exact Hnone|].
    unfold realizar_paso.
    rewrite (bucle_intentos_agotado (Z.to_nat max_intentos)).
    + do 2 f_equal. unfold con_bloqueos. f_equal. lia.
    + f_equal. lia.
    + exact Hnone.
Qed.

(** X4.  A step call returns [True] exactly when one of the draws its
    budget allows gives a candidate inside the region. *)
Theorem realizar_paso_exito_sii
    (max_intentos : Z) (rw : RandomWalk) (az : Azar) :
  fst (fst (realizar_paso max_intentos rw az)) = true
  <-> exists k : nat,
        Z.of_nat k < max_intentos /\ candidata_valida rw az k = true.
Proof.
  destruct (realizar_paso_casos max_intentos rw az)
    as [(k & Hk & Hv & Heq) | [Hnone Heq]]; rewrite Heq; cbn [fst].
  - split; [intros _; exists k; auto | reflexivity].
  - split; [discriminate|].
    intros (k & Hk & Hv). rewrite Hnone in Hv by lia. discriminate.
Qed.

(** X5.  The accounts of a step call: it leaves the region alone, adds to
    the blocked counter the number [k] of candidates it rejected, and takes
    from the generator one draw for each of them plus one for the move it
    commits.  When it returns [True], [k] is below the budget; when it
    returns [False], [k] is the whole budget, [max(max_intentos, 0)]. *)
Theorem realizar_paso_cuentas
    (max_intentos : Z) (rw : RandomWalk) (az : Azar) :
  let exito := fst (fst (realizar_paso max_intentos rw az)) in
  let rw' := snd (fst (realizar_paso max_intentos rw az)) in
  let az' := snd (realizar_paso max_intentos rw az) in
  exists k : nat,
    entorno rw' = entorno rw /\
    intentos_bloqueados rw' = intentos_bloqueados rw + Z.of_nat k /\
    fuente az' = fuente az /\
    cursor az' = (cursor az + k + (if exito then 1 else 0))%nat /\
    (if exito then Z.of_nat k < max_intentos
     else Z.of_nat k = Z.max max_intentos 0).
Proof.
  destruct (realizar_paso_casos max_intentos rw az)
    as [(k & Hk & Hv & Heq) | [Hnone Heq]]; rewrite Heq; cbn [fst snd].
  - exists k. cbn. repeat split; auto. lia.
  - exists (Z.to_nat max_intentos). cbn. repeat split; auto; lia.
Qed.

(** ** What holds of every engine *)

Lemma contadores_motor_tras (e : Entorno) (ops : list Operacion) (az : Azar) :
  0 <= pasos_realizados (motor_tras e ops az) /\
  0 <= intentos_bloqueados (motor_tras e ops az).
Proof.
  unfold motor_tras.
  apply (ejecutar_todas_conserva
           (fun rw => 0 <= pasos_realizados rw /\ 0 <= intentos_bloqueados rw)).
  - unfold bloquear; cbn. lia.
  - unfold mover; cbn. lia.
  - unfold reiniciar; cbn. lia.
  - cbn. lia.
Qed.

(** X6.  After any sequence of calls, over any region, the position of the
    engine is inside the region as soon as the start is, or as soon as one
    step has been counted since construction or the last reset. *)
Theorem posicion_actual_valida
    (e : Entorno) (ops : list Operacion) (az : Azar) :
  valida e (pos_inicial e) = true
  \/ 0 < pasos_realizados (motor_tras e ops az) ->
  valida e (posicion_actual (motor_tras e ops az)) = true.
Proof.
  intros Hcond.
  destruct (camino_bien_formado_motor_tras e ops az)
    as (_ & Hlen & [l0 Hcab] & [l1 Hult] & Hcola & _).
  rewrite Hcab in Hlen, Hult, Hcola. cbn [tl length] in Hlen, Hcola.
  rewrite Forall_forall in Hcola.
  destruct l1 as [|p l1]; cbn [app] in Hult.
  - injection Hult as Hp Hl0. subst l0. cbn [length] in Hlen.
    destruct Hcond as [Hs | Hpos]; [now rewrite <- Hp | lia].
  - injection Hult as _ Hl0. apply Hcola. rewrite Hl0.
    apply in_or_app. right. now left.
Qed.

Lemma posicion_actual_valida_witness :
  let e := Entorno_init 3 3 (Some (3, 1)) in
  let ops := [op_realizar_paso 10] in
  let az := azar_de [3; 2]%nat in
  (valida e (pos_inicial e) = true
   \/ 0 < pasos_realizados (motor_tras e ops az)) /\
  valida e (posicion_actual (motor_tras e ops az)) = true.
Proof.
  intros e ops az.
  assert (H : valida e (pos_inicial e) = true
              \/ 0 < pasos_realizados (motor_tras e ops az))
    by (right; vm_compute; reflexivity).
  split; [exact H|].
  exact (posicion_actual_valida e ops az H).
Defined.

Lemma manhattan_motor_tras (e : Entorno) (ops : list Operacion) (az : Azar) :
  entorno (motor_tras e ops az) = e /\
  exists k, 0 <= k /\
    pasos_realizados (motor_tras e ops az)
    = manhattan (motor_tras e ops az) + 2 * k.
Proof.
  unfold motor_tras.
  apply (ejecutar_todas_conserva
           (fun rw => entorno rw = e /\
                      exists k, 0 <= k /\
                                pasos_realizados rw = manhattan rw + 2 * k)).
  - unfold bloquear, manhattan; cbn. tauto.
  - intros rw d [He (k & Hk & Hp)] Hd _. split; [exact He|].
    unfold manhattan in Hp |- *.
    unfold mover, nueva_posicion; cbn [entorno posicion_actual
      pasos_realizados].
    destruct (posicion_actual rw) as [x y].
    destruct (pos_inicial (entorno rw)) as [x0 y0].
    cbn [fst snd] in Hp.
    cbn in Hd. destruct Hd as [<- | [<- | [<- | [<- | []]]]]; cbn [fst snd].
    + destruct (Z_lt_le_dec (y - y0) 1);
        [exists k | exists (k + 1)]; lia.
    + destruct (Z_lt_le_dec (y - y0) 0);
        [exists (k + 1) | exists k]; lia.
    + destruct (Z_lt_le_dec (x - x0) 1);
        [exists k | exists (k + 1)]; lia.
    + destruct (Z_lt_le_dec (x - x0) 0);
        [exists (k + 1) | exists k]; lia.
  - intros rw [He _]. split; [exact He|].
    exists 0. unfold reiniciar, manhattan; cbn. lia.
  - split; [reflexivity|]. exists 0. unfold manhattan; cbn. lia.
Qed.

(** X7.  In the snapshot of any engine, after any sequence of calls: the
    step counter is the Manhattan distance plus an even number that is not
    negative, so the Manhattan distance never exceeds the steps taken and
    has their parity; and the integer under the power [0.5] of the
    Euclidean distance lies between 0 and the square of the step counter. *)
Theorem distancias_acotadas_por_pasos
    (e : Entorno) (ops : list Operacion) (az : Azar) :
  let est := obtener_estadisticas (motor_tras e ops az) in
  (exists k, 0 <= k /\
     Est.pasos_realizados est = Est.distancia_manhattan est + 2 * k) /\
  (exists r, Est.distancia_euclidiana est = Potencia05 r /\
     0 <= r <= Est.pasos_realizados est ^ 2).
Proof.
  destruct (manhattan_motor_tras e ops az) as [He (k & Hk & Hp)].
  unfold obtener_estadisticas, _calcular_distancia_manhattan,
    _calcular_distancia_euclidiana; cbn.
  unfold manhattan in Hp.
  destruct (pos_inicial (entorno (motor_tras e ops az))) as [x0 y0].
  destruct (posicion_actual (motor_tras e ops az)) as [x1 y1].
  cbn [fst snd] in Hp.
  split.
  - exists k. split; [exact Hk | exact Hp].
  - eexists. split; [reflexivity|]. rewrite Hp. nia.
Qed.

(** X8.  When the start is inside the region, the Manhattan distance of
    any snapshot is at most [(ancho - 1) + (alto - 1)]. *)
Theorem distancia_manhattan_acotada_por_region
    (e : Entorno) (ops : list Operacion) (az : Azar) :
  valida e (pos_inicial e) = true ->
  Est.distancia_manhattan (obtener_estadisticas (motor_tras e ops az))
  <= (ancho e - 1) + (alto e - 1).
Proof.
  intros Hs.
  assert (Hp : valida e (posicion_actual (motor_tras e ops az)) = true).
  { destruct (camino_bien_formado_motor_tras e ops az)
      as (_ & _ & [l0 Hcab] & [l1 Hult] & Hcola & _).
    rewrite Hcab in Hult, Hcola. cbn [tl] in Hcola.
    rewrite Forall_forall in Hcola.
    destruct l1 as [|p l1]; cbn [app] in Hult.
    - injection Hult as Hp _. now rewrite <- Hp.
    - injection Hult as _ Hl0. apply Hcola. rewrite Hl0.
      apply in_or_app. right. now left. }
  destruct (manhattan_motor_tras e ops az) as [He _].
  unfold obtener_estadisticas, _calcular_distancia_manhattan; cbn.
  rewrite He. unfold valida in Hs, Hp.
  apply es_posicion_valida_spec in Hs. apply es_posicion_valida_spec in Hp.
  destruct (pos_inicial e) as [x0 y0].
  destruct (posicion_actual (motor_tras e ops az)) as [x1 y1].
  cbn [fst snd] in Hs, Hp. lia.
Qed.

Lemma distancia_manhattan_acotada_por_region_witness :
  let e := Entorno_init 3 2 (Some (0, 0)) in
  let ops := [op_simular 3 true 10] in
  let az := azar_de [3; 3; 1]%nat in
  valida e (pos_inicial e) = true /\
  Est.distancia_manhattan (obtener_estadisticas (motor_tras e ops az))
  <= (ancho e - 1) + (alto e - 1).
Proof.
  intros e ops az.
  assert (H : valida e (pos_inicial e) = true) by reflexivity.
  split; [exact H|].
  exact (distancia_manhattan_acotada_por_region e ops az H).
Defined.

(** ** The history is only appended to *)

Lemma continua_a_refl (rw : RandomWalk) : continua_a rw rw.
Proof.
  unfold continua_a. repeat split; [|lia].
  exists []. rewrite app_nil_r. cbn. split; [reflexivity | lia].
Qed.

Lemma continua_a_bloquear (rw0 rw : RandomWalk) :
  continua_a rw0 rw -> continua_a rw0 (bloquear rw).
Proof.
  unfold continua_a, bloquear; cbn. intros (He & Hl & Hb).
  repeat split; auto. lia.
Qed.

Lemma continua_a_mover (rw0 rw : RandomWalk) (c : Posicion) :
  continua_a rw0 rw -> continua_a rw0 (mover rw c).
Proof.
  unfold continua_a, mover; cbn. intros (He & (l & Hl & Hn) & Hb).
  repeat split; auto.
  exists (l ++ [c]). rewrite Hl, app_assoc, length_app. cbn [length].
  split; [reflexivity | lia].
Qed.

Lemma ejecutar_continua (rw0 : RandomWalk) (op : Operacion)
    (rw : RandomWalk) (az : Azar) :
  op <> op_reiniciar ->
  continua_a rw0 rw -> continua_a rw0 (fst (ejecutar op rw az)).
Proof.
  intros Hop H. destruct op as [m | n mp mc | | ]; cbn [ejecutar].
  - pose proof (realizar_paso_conserva (continua_a rw0)
                  (continua_a_bloquear rw0)
                  (fun r d Hr _ _ => continua_a_mover rw0 r _ Hr)
                  m rw az H) as H1.
    destruct (realizar_paso m rw az) as [[b rw'] az']. exact H1.
  - pose proof (simular_conserva (continua_a rw0)
                  (continua_a_bloquear rw0)
                  (fun r d Hr _ _ => continua_a_mover rw0 r _ Hr)
                  n mp mc rw az H) as H1.
    destruct (simular n mp mc rw az) as [[r rw'] az']. exact H1.
  - exact H.
  - contradiction.
Qed.

Lemma ejecutar_todas_continua (rw0 : RandomWalk) (ops : list Operacion) :
  Forall (fun op => op <> op_reiniciar) ops ->
  forall (rw : RandomWalk) (az : Azar),
    continua_a rw0 rw -> continua_a rw0 (fst (ejecutar_todas ops rw az)).
Proof.
  induction 1 as [|op ops Hop _ IH]; intros rw az Hr.
  - exact Hr.
  - cbn [ejecutar_todas].
    pose proof (ejecutar_continua rw0 op rw az Hop Hr) as H1.
    destruct (ejecutar op rw az) as [r' az']. now apply IH.
Qed.

(** X9.  Through any sequence of step, simulate and statistics calls, that
    is, without a reset, nothing recorded is lost: the region is the same,
    the path from before is a prefix of the path after, the positions
    appended are as many as the steps counted since, and the blocked
    counter has not gone down. *)
Theorem camino_solo_crece
    (ops : list Operacion) (rw : RandomWalk) (az : Azar) :
  Forall (fun op => op <> op_reiniciar) ops ->
  let rw' := fst (ejecutar_todas ops rw az) in
  entorno rw' = entorno rw /\
  (exists l, camino rw' = camino rw ++ l /\
             Z.of_nat (length l)
             = pasos_realizados rw' - pasos_realizados rw) /\
  intentos_bloqueados rw <= intentos_bloqueados rw'.
Proof.
  intros Hops.
  exact (ejecutar_todas_continua rw ops Hops rw az (continua_a_refl rw)).
Qed.

Lemma camino_solo_crece_witness :
  let ops := [op_realizar_paso 4; op_obtener_estadisticas;
              op_simular 2 true 10] in
  let rw := RandomWalk_init (Entorno_init 4 4 None) in
  let az := azar_de [0; 0; 0; 3]%nat in
  Forall (fun op => op <> op_reiniciar) ops /\
  exists l, camino (fst (ejecutar_todas ops rw az)) = camino rw ++ l /\
            Z.of_nat (length l)
            = pasos_realizados (fst (ejecutar_todas ops rw az))
              - pasos_realizados rw.
Proof.
  intros ops rw az.
  assert (H : Forall (fun op => op <> op_reiniciar) ops)
    by (repeat constructor; discriminate).
  split; [exact H|].
  exact (proj1 (proj2 (camino_solo_crece ops rw az H))).
Defined.

(** ** [simular]: the summary interval and the composition of runs *)

(** X10.  With the per-step display off and a summary interval of 0,
    [simular] with [num_pasos >= 1] makes exactly one step call: if that
    call returns [True] the summary condition divides by zero and
    [ZeroDivisionError] is raised with the step already committed; if it
    returns [False] the loop is left and the statistics are returned. *)
Theorem simular_intervalo_cero
    (num_pasos : Z) (rw : RandomWalk) (az : Azar) :
  1 <= num_pasos ->
  let exito := fst (fst (realizar_paso 1000 rw az)) in
  let rw1 := snd (fst (realizar_paso 1000 rw az)) in
  let az1 := snd (realizar_paso 1000 rw az) in
  simular num_pasos false 0 rw az
  = if exito then (ZeroDivisionError, rw1, az1)
    else (Retorna (obtener_estadisticas rw1), rw1, az1).
Proof.
  intros Hn. unfold simular.
  destruct (Z.to_nat num_pasos) as [|r] eqn:Hr; [lia|].
  cbn [bucle_pasos]. unfold max_intentos_por_defecto.
  destruct (realizar_paso 1000 rw az) as [[exito rw1] az1].
  destruct exito; reflexivity.
Qed.

Lemma simular_intervalo_cero_witness :
  let rw := RandomWalk_init (Entorno_init 10 10 None) in
  let az := azar_de [1; 1]%nat in
  1 <= 5 /\
  simular 5 false 0 rw az
  = (ZeroDivisionError,
     mkRandomWalk (Entorno_init 10 10 None) (5, 6) [(5, 5); (5, 6)] 1 0,
     mkAzar (fuente az) 1).
Proof.
  intros rw az.
  assert (H : 1 <= 5) by (intro Hc; discriminate Hc).
  split; [exact H|].
  exact (simular_intervalo_cero 5 rw az H).
Defined.

Lemma bucle_pasos_compone (a b : nat) :
  forall mostrar_progreso mostrar_cada rw az rw1 az1,
    bucle_pasos a mostrar_progreso mostrar_cada rw az = (Retorna tt, rw1, az1) ->
    pasos_realizados rw1 = pasos_realizados rw + Z.of_nat a ->
    bucle_pasos (a + b) mostrar_progreso mostrar_cada rw az
    = bucle_pasos b mostrar_progreso mostrar_cada rw1 az1.
Proof.
  induction a as [|a IH]; intros mp mc rw az rw1 az1 Hrun Hp.
  - cbn in Hrun. injection Hrun as <- <-. reflexivity.
  - cbn [bucle_pasos Nat.add] in Hrun |- *.
    destruct (realizar_paso max_intentos_por_defecto rw az)
      as [[exito rw'] az'] eqn:Hpaso.
    pose proof (realizar_paso_pasos _ _ _ _ _ _ Hpaso) as Hc.
    destruct exito; cbn [negb] in Hrun |- *.
    + destruct (negb mp && (mc =? 0)); [discriminate Hrun|].
      apply (IH mp mc rw' az' rw1 az1 Hrun). lia.
    + injection Hrun as <- <-. lia.
Qed.

(** X11.  Runs compose: when [simular(a)] returned after completing all
    of its [a] steps, running [simular(b)] next ends exactly as a single
    [simular(a + b)] from the beginning does: same result, same engine,
    same generator. *)
Theorem simular_compone
    (a b : Z) (mostrar_progreso : bool) (mostrar_cada : Z)
    (rw rw1 : RandomWalk) (az az1 : Azar) (est1 : Est.t) :
  0 <= a -> 0 <= b ->
  simular a mostrar_progreso mostrar_cada rw az = (Retorna est1, rw1, az1) ->
  pasos_realizados rw1 = pasos_realizados rw + a ->
  simular (a + b) mostrar_progreso mostrar_cada rw az
  = simular b mostrar_progreso mostrar_cada rw1 az1.
Proof.
  intros Ha Hb Hrun Hp. unfold simular in Hrun |- *.
  destruct (bucle_pasos (Z.to_nat a) mostrar_progreso mostrar_cada rw az)
    as [[r rw'] az'] eqn:Hbucle.
  destruct r as [[]|]; [|discriminate Hrun].
  injection Hrun as _ -> ->.
  rewrite Z2Nat.inj_add by lia.
  rewrite (bucle_pasos_compone _ _ _ _ _ _ _ _ Hbucle) by lia.
  reflexivity.
Qed.

Lemma simular_compone_witness :
  let rw := RandomWalk_init (Entorno_init 10 10 None) in
  let az := azar_de [1; 3; 3; 0]%nat in
  let rw1 := mkRandomWalk (Entorno_init 10 10 None) (6, 6)
                          [(5, 5); (5, 6); (6, 6)] 2 0 in
  let az1 := mkAzar (fuente az) 2 in
  0 <= 2 /\ 0 <= 2 /\
  simular 2 true 10 rw az = (Retorna (obtener_estadisticas rw1), rw1, az1) /\
  pasos_realizados rw1 = pasos_realizados rw + 2 /\
  simular (2 + 2) true 10 rw az = simular 2 true 10 rw1 az1.
Proof.
  intros rw az rw1 az1.
  assert (H1 : 0 <= 2) by (intro Hc; discriminate Hc).
  assert (H3 : simular 2 true 10 rw az
               = (Retorna (obtener_estadisticas rw1), rw1, az1))
    by reflexivity.
  assert (H4 : pasos_realizados rw1 = pasos_realizados rw + 2)
    by reflexivity.
  split; [exact H1 | split; [exact H1 | split; [exact H3 |
    split; [exact H4 |]]]].
  exact (simular_compone 2 2 true 10 rw rw1 az az1 _ H1 H1 H3 H4).
Defined.

(** ** The efficiency line, on what the engine produces *)




(** X13.  On the snapshot of an engine, after any sequence of calls over
    any region, the efficiency line never divides by zero; it is left out
    exactly when the step counter is 0. *)
Theorem eficiencia_de_un_motor
    (e : Entorno) (ops : list Operacion) (az : Azar) :
  let est := obtener_estadisticas (motor_tras e ops az) in
  eficiencia est <> DivisionPorCero /\
  (eficiencia est = NoCalculada
   <-> pasos_realizados (motor_tras e ops az) = 0).
Proof.
  destruct (contadores_motor_tras e ops az) as [Hp Hb].
  unfold eficiencia, obtener_estadisticas;
    cbn [Est.pasos_realizados Est.intentos_bloqueados].
  destruct (Z.gtb_spec (pasos_realizados (motor_tras e ops az)) 0)
    as [Hpos | Hno].
  - replace (pasos_realizados (motor_tras e ops az)
             + intentos_bloqueados (motor_tras e ops az) =? 0)
      with false by (symmetry; apply Z.eqb_neq; lia).
    split; [discriminate|]. split; [discriminate | lia].
  - split; [discriminate|]. split; [lia | reflexivity].
Qed.

(** ** What the visualizer is given to draw *)

Lemma hasta_nat {A : Type} (l : list A) (i : nat) :
  Vis.hasta l (Z.of_nat i + 1) = firstn (S i) l.
Proof.
  unfold Vis.hasta.
  replace (Z.of_nat i + 1 <? 0) with false by (symmetry; apply Z.ltb_ge; lia).
  f_equal. lia.
Qed.

Lemma firstn_S_nth_error {A : Type} (l : list A) :
  forall (i : nat) (p : A),
    nth_error l i = Some p -> firstn (S i) l = firstn i l ++ [p].
Proof.
  induction l as [|a l IH]; intros [|i] p H; try discriminate.
  - injection H as ->. reflexivity.
  - cbn [nth_error] in H. cbn [firstn app]. f_equal.
    exact (IH i p H).
Qed.

Lemma ultimo_anadido {A : Type} (l : list A) (x : A) :
  Vis.ultimo (l ++ [x]) = Some x.
Proof. unfold Vis.ultimo. now rewrite rev_unit. Qed.


Lemma animate_en_rango (camino : list Posicion) (i : nat) (p : Posicion) :
  nth_error camino i = Some p ->
  Vis.animate camino (Z.of_nat i)
  = Vis.mkCuadro
      (map fst (firstn (S i) camino), map snd (firstn (S i) camino))
      (Some ([fst p], [snd p]))
      (Vis.TituloPuesto (Z.of_nat i) (Z.of_nat (length camino) - 1)
         (inject_Z (Z.of_nat i) / inject_Z (Z.of_nat (length camino))
          * inject_Z 100)%Q
         (fst p, snd p)).
Proof.
  intros Hp. unfold Vis.animate. rewrite hasta_nat.
  assert (Hlen : (i < length camino)%nat)
    by (apply nth_error_Some; congruence).
  replace (Z.of_nat (length camino) =? 0) with false
    by (symmetry; apply Z.eqb_neq; lia).
  pose proof (firstn_S_nth_error camino i p Hp) as Hpre.
  set (pre := firstn (S i) camino) in *.
  assert (Hux : Vis.ultimo (map fst pre) = Some (fst p))
    by (rewrite Hpre, map_app; apply ultimo_anadido).
  assert (Huy : Vis.ultimo (map snd pre) = Some (snd p))
    by (rewrite Hpre, map_app; apply ultimo_anadido).
  assert (Hlx : last (map fst pre) 0 = fst p)
    by (rewrite Hpre, map_app; apply last_last).
  assert (Hly : last (map snd pre) 0 = snd p)
    by (rewrite Hpre, map_app; apply last_last).
  assert (Hn : (Z.of_nat (length pre) >? 0) = true).
  { apply Z.gtb_lt. rewrite Hpre, length_app. cbn [length]. lia. }
  rewrite Hux, Huy, Hlx, Hly, Hn. reflexivity.
Qed.

(** X14.  For a frame number [i] that is an index of the path, [animate]
    raises nothing: the line is given the first [i + 1] positions of the
    path, the point is put on [camino[i]], and the title shows step [i] of
    [len(camino) - 1] and the position [camino[i]]. *)
Theorem animate_cuadro_en_rango
    (camino : list Posicion) (i : nat) (p : Posicion) :
  nth_error camino i = Some p ->
  Vis.linea (Vis.animate camino (Z.of_nat i))
  = (map fst (firstn (i + 1) camino), map snd (firstn (i + 1) camino)) /\
  Vis.punto (Vis.animate camino (Z.of_nat i)) = Some ([fst p], [snd p]) /\
  exists progreso,
    Vis.titulo (Vis.animate camino (Z.of_nat i))
    = Vis.TituloPuesto (Z.of_nat i) (Z.of_nat (length camino) - 1)
                       progreso p.
Proof.
  intros Hp. rewrite (animate_en_rango camino i p Hp).
  cbn [Vis.linea Vis.punto Vis.titulo]. rewrite Nat.add_1_r.
  split; [reflexivity|]. split; [reflexivity|].
  eexists. destruct p; reflexivity.
Qed.

Lemma animate_cuadro_en_rango_witness :
  let camino := [(5, 5); (5, 4); (6, 4)] in
  nth_error camino 1 = Some (5, 4) /\
  Vis.linea (Vis.animate camino (Z.of_nat 1))
  = (map fst (firstn (1 + 1) camino), map snd (firstn (1 + 1) camino)) /\
  Vis.punto (Vis.animate camino (Z.of_nat 1))
  = Some ([fst (5, 4)], [snd (5, 4)]) /\
  exists progreso,
    Vis.titulo (Vis.animate camino (Z.of_nat 1))
    = Vis.TituloPuesto (Z.of_nat 1) (Z.of_nat (length camino) - 1)
                       progreso (5, 4).
Proof.
  intros camino.
  assert (H : nth_error camino 1 = Some (5, 4)) by reflexivity.
  split; [exact H|].
  exact (animate_cuadro_en_rango camino 1 (5, 4) H).
Defined.




Lemma nth_error_map_seq {A : Type} (f : nat -> A) (n : nat) :
  forall (s i : nat) (c : A),
    nth_error (map f (seq s n)) i = Some c ->
    (i < n)%nat /\ c = f (s + i)%nat.
Proof.
  induction n as [|n IH]; intros s i c H.
  - destruct i; discriminate.
  - destruct i as [|i]; cbn in H.
    + injection H as <-. rewrite Nat.add_0_r. split; [lia | reflexivity].
    + destruct (IH (S s) i c H) as [Hi ->].
      split; [lia | f_equal; lia].
Qed.

(** X16.  The animation of the snapshot of any engine, after any sequence
    of calls: there is one frame for the start and one for each step
    counted; no frame raises; frame [i] puts the point on [camino[i]] and
    shows that position in its title; frame 0 is on the start of the
    region and the last frame, frame [pasos_realizados], on the final
    position of the snapshot. *)
Theorem animacion_de_un_motor
    (e : Entorno) (ops : list Operacion) (az : Azar) :
  let est := obtener_estadisticas (motor_tras e ops az) in
  let cuadros := Vis.cuadros (Est.camino est) in
  Z.of_nat (length cuadros) = Est.pasos_realizados est + 1 /\
  (forall i c,
      nth_error cuadros i = Some c ->
      exists p paso total progreso,
        nth_error (Est.camino est) i = Some p /\
        Vis.punto c = Some ([fst p], [snd p]) /\
        Vis.titulo c = Vis.TituloPuesto paso total progreso p) /\
  (exists c, nth_error cuadros 0 = Some c /\
             Vis.punto c = Some ([fst (pos_inicial e)],
                                 [snd (pos_inicial e)])) /\
  (exists c, nth_error cuadros (Z.to_nat (Est.pasos_realizados est)) = Some c /\
             Vis.punto c = Some ([fst (Est.posicion_final est)],
                                 [snd (Est.posicion_final est)])).
Proof.
  cbv zeta. unfold obtener_estadisticas;
    cbn [Est.camino Est.pasos_realizados Est.posicion_final].
  destruct (camino_bien_formado_motor_tras e ops az)
    as (_ & Hlen & [l0 Hcab] & [l1 Hult] & _).
  set (rw := motor_tras e ops az) in *.
  assert (Hcuadro : forall i p,
    nth_error (camino rw) i = Some p ->
    nth_error (Vis.cuadros (camino rw)) i
    = Some (Vis.animate (camino rw) (Z.of_nat i))).
  { intros i p Hp. unfold Vis.cuadros.
    assert (Hi : (i < length (camino rw))%nat)
      by (apply nth_error_Some; congruence).
    rewrite nth_error_map, nth_error_seq.
    apply Nat.ltb_lt in Hi. rewrite Hi. reflexivity. }
  split; [|split; [|split]].
  - unfold Vis.cuadros. now rewrite length_map, length_seq.
  - intros i c Hc. unfold Vis.cuadros in Hc.
    apply nth_error_map_seq in Hc. destruct Hc as [Hi ->]. cbn [Nat.add].
    destruct (nth_error (camino rw) i) as [p|] eqn:Hp;
      [|apply nth_error_None in Hp; lia].
    exists p. rewrite (animate_en_rango (camino rw) i p Hp).
    do 3 eexists. split; [reflexivity|].
    split; [reflexivity|]. destruct p; reflexivity.
  - assert (H0 : nth_error (camino rw) 0 = Some (pos_inicial e))
      by now rewrite Hcab.
    eexists. split; [exact (Hcuadro _ _ H0)|].
    now rewrite (animate_en_rango _ _ _ H0).
  - assert (Hn : nth_error (camino rw) (Z.to_nat (pasos_realizados rw))
                 = Some (posicion_actual rw)).
    { replace (Z.to_nat (pasos_realizados rw))
        with (length (camino rw) - 1)%nat by lia.
      rewrite Hult at 1 2. apply ultimo_de_anadido. }
    eexists. split; [exact (Hcuadro _ _ Hn)|].
    now rewrite (animate_en_rango _ _ _ Hn).
Qed.

(** X17.  The static plot of the snapshot of an engine whose start is
    inside the region, drawn over the engine's own region: the line is
    drawn exactly when at least one step is counted; every coordinate given
    to the line, and both markers, lie strictly between the axis limits
    [-1] and [ancho] (for x) and [-1] and [alto] (for y). *)
Theorem grafico_dentro_de_los_ejes
    (e : Entorno) (ops : list Operacion) (az : Azar) :
  valida e (pos_inicial e) = true ->
  let rw := motor_tras e ops az in
  let g := Vis.visualizar_camino_estatico (obtener_estadisticas rw) e in
  let en_x := fun x => fst (Vis.xlim g) < x < snd (Vis.xlim g) in
  let en_y := fun y => fst (Vis.ylim g) < y < snd (Vis.ylim g) in
  Vis.xlim g = (-1, ancho e) /\ Vis.ylim g = (-1, alto e) /\
  (Vis.trazo g = None <-> pasos_realizados rw = 0) /\
  (forall xs ys, Vis.trazo g = Some (xs, ys) ->
                 xs = map fst (camino rw) /\ ys = map snd (camino rw) /\
                 Forall en_x xs /\ Forall en_y ys) /\
  en_x (fst (Vis.marca_inicio g)) /\ en_y (snd (Vis.marca_inicio g)) /\
  en_x (fst (Vis.marca_fin g)) /\ en_y (snd (Vis.marca_fin g)).
Proof.
  intros Hs. cbv zeta.
  destruct (camino_bien_formado_motor_tras e ops az)
    as (He & Hlen & [l0 Hcab] & [l1 Hult] & Hcola & _).
  set (rw := motor_tras e ops az) in *.
  assert (Htodos : Forall (fun p => valida e p = true) (camino rw)).
  { rewrite Hcab in Hcola |- *. constructor; [exact Hs | exact Hcola]. }
  assert (Hdentro : forall p, In p (camino rw) ->
            (-1 < fst p < ancho e) /\ (-1 < snd p < alto e)).
  { intros p Hp. rewrite Forall_forall in Htodos.
    specialize (Htodos p Hp). unfold valida in Htodos.
    apply es_posicion_valida_spec in Htodos. lia. }
  assert (Hini : In (pos_inicial e) (camino rw))
    by (rewrite Hcab; now left).
  assert (Hfin : In (posicion_actual rw) (camino rw))
    by (rewrite Hult; apply in_or_app; right; now left).
  unfold Vis.visualizar_camino_estatico, obtener_estadisticas;
    cbn [Vis.xlim Vis.ylim Vis.trazo Vis.marca_inicio Vis.marca_fin
         Est.camino Est.posicion_inicial Est.posicion_final fst snd].
  rewrite He.
  split; [reflexivity|]. split; [reflexivity|]. split; [|split].
  - destruct (Z.gtb_spec (Z.of_nat (length (camino rw))) 1) as [Hgt | Hle].
    + split; [discriminate | intros H0; exfalso; lia].
    + split; [intros _ | reflexivity].
      rewrite Hcab in Hlen, Hle. cbn [length] in Hlen, Hle. lia.
  - intros xs ys Htr.
    destruct (Z.of_nat (length (camino rw)) >? 1); [|discriminate].
    injection Htr as <- <-.
    split; [reflexivity|]. split; [reflexivity|].
    split; apply Forall_forall; intros v Hv; apply in_map_iff in Hv;
      destruct Hv as (p & <- & Hp); now apply Hdentro.
  - destruct (Hdentro _ Hini), (Hdentro _ Hfin). tauto.
Qed.

Lemma grafico_dentro_de_los_ejes_witness :
  let e := Entorno_init 3 3 None in
  let ops := [op_simular 2 true 10] in
  let az := azar_de [0; 2]%nat in
  valida e (pos_inicial e) = true /\
  let g := Vis.visualizar_camino_estatico
             (obtener_estadisticas (motor_tras e ops az)) e in
  Vis.xlim g = (-1, 3) /\ Vis.ylim g = (-1, 3) /\
  (Vis.trazo g = None <-> pasos_realizados (motor_tras e ops az) = 0).
Proof.
  intros e ops az.
  assert (H : valida e (pos_inicial e) = true) by reflexivity.
  split; [exact H|].
  pose proof (grafico_dentro_de_los_ejes e ops az H) as (H1 & H2 & H3 & _).
  exact (conj H1 (conj H2 H3)).
Defined.

(** ** The draws *)


Lemma realizar_paso_sorteos (max_intentos : Z) (rw : RandomWalk) (az : Azar) :
  sorteos_cuadran rw az (snd (fst (realizar_paso max_intentos rw az)))
                        (snd (realizar_paso max_intentos rw az)) /\
  Z.of_nat (cursor (snd (realizar_paso max_intentos rw az)))
  - Z.of_nat (cursor az) <= Z.max max_intentos 0.
Proof.
  unfold sorteos_cuadran.
  destruct (realizar_paso_casos max_intentos rw az)
    as [(k & Hk & Hv & Heq) | [Hnone Heq]]; rewrite Heq;
    unfold mover, con_bloqueos, avanzar;
    cbn [fst snd fuente cursor pasos_realizados intentos_bloqueados];
    (split; [split; [reflexivity | lia] | lia]).
Qed.

Lemma bucle_pasos_sorteos (restantes : nat) :
  forall mostrar_progreso mostrar_cada rw az,
    sorteos_cuadran rw az
      (snd (fst (bucle_pasos restantes mostrar_progreso mostrar_cada rw az)))
      (snd (bucle_pasos restantes mostrar_progreso mostrar_cada rw az)) /\
    Z.of_nat (cursor (snd (bucle_pasos restantes mostrar_progreso
                                       mostrar_cada rw az)))
    - Z.of_nat (cursor az) <= 1000 * Z.of_nat restantes.
Proof.
  induction restantes as [|r IH]; intros mp mc rw az; cbn [bucle_pasos].
  - unfold sorteos_cuadran; cbn [fst snd].
    split; [split; [reflexivity | lia] | lia].
  - pose proof (realizar_paso_sorteos max_intentos_por_defecto rw az)
      as [[Hf Hc] Hb].
    change (Z.max max_intentos_por_defecto 0) with 1000 in Hb.
    destruct (realizar_paso max_intentos_por_defecto rw az)
      as [[exito rw1] az1].
    cbn [fst snd] in Hf, Hc, Hb.
    assert (Hparar :
      sorteos_cuadran rw az rw1 az1 /\
      Z.of_nat (cursor az1) - Z.of_nat (cursor az) <= 1000 * Z.of_nat (S r))
      by (split; [split; [exact Hf | exact Hc] | lia]).
    destruct exito; cbn [negb]; [|exact Hparar].
    destruct (negb mp && (mc =? 0)); [exact Hparar|].
    destruct (IH mp mc rw1 az1) as [[Hf' Hc'] Hb'].
    unfold sorteos_cuadran. split; [split; [congruence | lia] | lia].
Qed.

Lemma simular_sorteos num_pasos mostrar_progreso mostrar_cada rw az :
  sorteos_cuadran rw az
    (snd (fst (simular num_pasos mostrar_progreso mostrar_cada rw az)))
    (snd (simular num_pasos mostrar_progreso mostrar_cada rw az)) /\
  Z.of_nat (cursor (snd (simular num_pasos mostrar_progreso mostrar_cada
                                 rw az)))
  - Z.of_nat (cursor az) <= 1000 * Z.max num_pasos 0.
Proof.
  pose proof (bucle_pasos_sorteos (Z.to_nat num_pasos)
                mostrar_progreso mostrar_cada rw az) as H.
  unfold simular.
  destruct (bucle_pasos _ _ _ _ _) as [[r rw'] az'].
  cbn [fst snd] in H. destruct r; cbn [fst snd]; (split; [tauto | lia]).
Qed.

(** X19.  [simular(num_pasos)] takes at most [1000 * max(num_pasos, 0)]
    values from the generator, whatever they are and however the call
    ends, and each value it takes shows up in the counters: the number of
    draws is the rise of the step counter plus the rise of the blocked
    counter. *)
Theorem simular_sorteos_acotados
    (num_pasos : Z) (mostrar_progreso : bool) (mostrar_cada : Z)
    (rw : RandomWalk) (az : Azar) :
  let rw' := snd (fst (simular num_pasos mostrar_progreso mostrar_cada
                               rw az)) in
  let az' := snd (simular num_pasos mostrar_progreso mostrar_cada rw az) in
  fuente az' = fuente az /\
  Z.of_nat (cursor az') - Z.of_nat (cursor az)
  = (pasos_realizados rw' - pasos_realizados rw)
    + (intentos_bloqueados rw' - intentos_bloqueados rw) /\
  Z.of_nat (cursor az') - Z.of_nat (cursor az) <= 1000 * Z.max num_pasos 0.
Proof.
  destruct (simular_sorteos num_pasos mostrar_progreso mostrar_cada rw az)
    as [[Hf Hc] Hb].
  cbv zeta. auto.
Qed.

Lemma ejecutar_todas_sorteos (ops : list Operacion) :
  Forall (fun op => op <> op_reiniciar) ops ->
  forall rw az,
    sorteos_cuadran rw az (fst (ejecutar_todas ops rw az))
                          (snd (ejecutar_todas ops rw az)).
Proof.
  induction 1 as [|op ops Hop _ IH]; intros rw az; cbn [ejecutar_todas].
  - unfold sorteos_cuadran; cbn [fst snd]. split; [reflexivity | lia].
  - assert (H1 : sorteos_cuadran rw az (fst (ejecutar op rw az))
                                       (snd (ejecutar op rw az))).
    { destruct op as [m | n mp mc | | ]; cbn [ejecutar].
      - pose proof (realizar_paso_sorteos m rw az) as [H _].
        destruct (realizar_paso m rw az) as [[b rw'] az']. exact H.
      - pose proof (simular_sorteos n mp mc rw az) as [H _].
        destruct (simular n mp mc rw az) as [[r rw'] az']. exact H.
      - unfold sorteos_cuadran; cbn [fst snd]. split; [reflexivity | lia].
      - contradiction. }
    destruct (ejecutar op rw az) as [rw1 az1]. cbn [fst snd] in H1.
    specialize (IH rw1 az1).
    unfold sorteos_cuadran in *. split; [|lia].
    destruct IH as [-> _]. tauto.
Qed.

(** X20.  Through any sequence of step, simulate and statistics calls
    without a reset, the counters account for the generator: the number of
    values taken from it is the rise of the step counter plus the rise of
    the blocked counter, and the sequence it draws from is the same. *)
Theorem sorteos_contados
    (ops : list Operacion) (rw : RandomWalk) (az : Azar) :
  Forall (fun op => op <> op_reiniciar) ops ->
  let rw' := fst (ejecutar_todas ops rw az) in
  let az' := snd (ejecutar_todas ops rw az) in
  fuente az' = fuente az /\
  Z.of_nat (cursor az') - Z.of_nat (cursor az)
  = (pasos_realizados rw' - pasos_realizados rw)
    + (intentos_bloqueados rw' - intentos_bloqueados rw).
Proof.
  intros Hops. exact (ejecutar_todas_sorteos ops Hops rw az).
Qed.

Lemma sorteos_contados_witness :
  let ops := [op_realizar_paso 2; op_simular 2 true 10] in
  let rw := RandomWalk_init (Entorno_init 2 2 (Some (0, 0))) in
  let az := azar_de [0; 2; 3; 0; 1]%nat in
  Forall (fun op => op <> op_reiniciar) ops /\
  Z.of_nat (cursor (snd (ejecutar_todas ops rw az))) - Z.of_nat (cursor az)
  = (pasos_realizados (fst (ejecutar_todas ops rw az))
     - pasos_realizados rw)
    + (intentos_bloqueados (fst (ejecutar_todas ops rw az))
       - intentos_bloqueados rw).
Proof.
  intros ops rw az.
  assert (H : Forall (fun op => op <> op_reiniciar) ops)
    by (repeat constructor; discriminate).
  split; [exact H|].
  exact (proj2 (sorteos_contados ops rw az H)).
Defined.
